(** * text-to-svg-path: a shallow embedding of [src/text-to-svg-path.ts]

    The development follows the three functions of the module,
    [textToSvgPath], [processSingleText] and [processTextWithFont], and the
    types of [types.ts].

    Modelling conventions.
    - A JavaScript object is the list of its own enumerable string-keyed
      properties in creation order; [Object_keys] reports them the way the
      language does (array-index keys first, ascending, then the others in
      creation order).  The objects the module creates with [{}] inherit the
      members of [Object.prototype] ([Object_prototype_names]): a read finds
      them where there is no own property ([obj_lookup]), and an assignment
      to [__proto__] runs the inherited setter: it creates no property and
      replaces the prototype, which a read of [__proto__] gives back
      ([ResultObject]).  The argument of [textToSvgPath] comes with the
      properties it inherits ([JSObject.t]), which the [in] operator and a
      property read see and [Object.keys] does not.
    - A request under a label is a record of the properties [types.ts]
      declares; what else such an object may carry is outside the model.
    - An optional property is an [option]; destructuring defaults apply to
      [None] only.
    - JavaScript numbers are kept behind the interface [JSNumber]; the
      theorems hold for every implementation of it.
    - [fetch], [opentype.parse] and the font object are external; they are
      section variables.  A thrown [Error] is represented by its message.
    - Asynchronous code is sequential here: an [await] is the place where
      the awaited call completes or throws.  Calls to [console.log] are not
      recorded. *)

From Stdlib Require Import Ascii String QArith Qround.
From stdpp Require Import base list sets strings pretty sorting.

Local Open Scope string_scope.
Local Open Scope list_scope.

(** ** Strings *)

Definition dquote : string := String "034"%char EmptyString.
Definition newline : string := String "010"%char EmptyString.

(** Concatenation of the pieces of a template literal. *)
Definition template (pieces : list string) : string :=
  foldr String.app EmptyString pieces.

(** ToBoolean on a string: only the empty string is falsy. *)
Definition truthy_string (s : string) : bool :=
  match s with
  | EmptyString => false
  | String _ _ => true
  end.

(** ToBoolean on an optional string property ([undefined] is falsy). *)
Definition truthy_opt_string (o : option string) : bool :=
  match o with
  | Some s => truthy_string s
  | None => false
  end.

(** ** Numbers *)

Class JSNumber (num : Type) := {
  num_of_Z : Z -> num;          (* an integer literal *)
  num_0_2 : num;                (* the literal 0.2 *)
  num_add : num -> num -> num;
  num_sub : num -> num -> num;
  num_mul : num -> num -> num;
  Math_ceil : num -> num;
  truthy_num : num -> bool;     (* ToBoolean: false on 0 and NaN *)
  num_toString : num -> string; (* the conversion of a template literal *)
  (* ToBoolean of an integer is false on 0 alone *)
  truthy_num_of_Z : forall z : Z, truthy_num (num_of_Z z) = negb (z =? 0)%Z;
  (* an integer is its own ceiling *)
  Math_ceil_of_Z : forall z : Z, Math_ceil (num_of_Z z) = num_of_Z z
}.

(** ** JavaScript objects used as maps *)

(** The members of [Object.prototype], which every object created with [{}]
    inherits.  Each of them is truthy when read: eleven functions, and the
    accessor [__proto__], whose getter gives the prototype object and whose
    setter replaces the prototype of the object assigned to. *)
Definition Object_prototype_names : list string :=
  [ "constructor"; "__defineGetter__"; "__defineSetter__"; "hasOwnProperty";
    "__lookupGetter__"; "__lookupSetter__"; "isPrototypeOf";
    "propertyIsEnumerable"; "toString"; "valueOf"; "__proto__";
    "toLocaleString" ].

(** What reading [o[k]] finds on an object created with [{}]. *)
Inductive Lookup (V : Type) :=
| Own (v : V)      (* an own property *)
| Inherited        (* a member of [Object.prototype] *)
| Undefined.
Arguments Own {V}.
Arguments Inherited {V}.
Arguments Undefined {V}.

Section Objects.
Context {V : Type}.

(** [o[k]], [None] for [undefined]. *)
Fixpoint obj_get (o : list (string * V)) (k : string) : option V :=
  match o with
  | [] => None
  | (k', v) :: o' => if decide (k' = k) then Some v else obj_get o' k
  end.

(** [o[k] = v]: an existing property keeps its place, a new one is added
    last. *)
Fixpoint obj_set (o : list (string * V)) (k : string) (v : V)
  : list (string * V) :=
  match o with
  | [] => [(k, v)]
  | (k', v') :: o' =>
      if decide (k' = k) then (k, v) :: o' else (k', v') :: obj_set o' k v
  end.

(** Reading [o[k]] on an object created with [{}]: an own property hides
    an inherited one. *)
Definition obj_lookup (o : list (string * V)) (k : string) : Lookup V :=
  match obj_get o k with
  | Some v => Own v
  | None =>
      if bool_decide (k ∈ Object_prototype_names) then Inherited
      else Undefined
  end.

(** The own properties after the assignment [o[k] = v] of an object [v] on
    an object created with [{}]: for [k = "__proto__"] the inherited setter
    is run and no property is created; any other key is created or
    updated as [obj_set] says, an inherited member of that name being a
    writable data property. *)
Definition obj_assign (o : list (string * V)) (k : string) (v : V)
  : list (string * V) :=
  if decide (k = "__proto__") then o else obj_set o k v.
End Objects.

(** *** Property order *)

Definition digit_value (c : ascii) : option N :=
  let n := N_of_ascii c in
  if ((48 <=? n) && (n <=? 57))%N then Some (n - 48)%N else None.

Fixpoint parse_digits (s : string) (acc : N) : option N :=
  match s with
  | EmptyString => Some acc
  | String c s' =>
      match digit_value c with
      | Some d => parse_digits s' (10 * acc + d)%N
      | None => None
      end
  end.

(** A key is an array index when it is the canonical decimal form of an
    integer below 2^32 - 1. *)
Definition array_index (s : string) : option N :=
  match s with
  | EmptyString => None
  | String c s' =>
      match parse_digits s 0%N with
      | Some n =>
          if (bool_decide (c ≠ "0"%char) || bool_decide (s' = EmptyString))
             && (n <? 4294967295)%N
          then Some n else None
      | None => None
      end
  end.

Definition is_array_index (s : string) : bool :=
  match array_index s with Some _ => true | None => false end.

Definition index_le (a b : string) : Prop :=
  match array_index a, array_index b with
  | Some m, Some n => (m <= n)%N
  | _, _ => True
  end.

Global Instance index_le_dec a b : Decision (index_le a b).
Proof.
  unfold index_le.
  destruct (array_index a), (array_index b); apply _.
Defined.

(** [Object.keys(o)]. *)
Definition Object_keys {V : Type} (o : list (string * V)) : list string :=
  merge_sort index_le (filter (fun k => is_array_index k = true) o.*1)
  ++ filter (fun k => is_array_index k ≠ true) o.*1.

(** ** The types of [types.ts] *)

Inductive OutputFormat :=
| Fsvg
| FpathData
| FpathElement
| FsvgWithBackground.

Global Instance OutputFormat_eq_dec : EqDecision OutputFormat.
Proof. solve_decision. Defined.

(** [TextToSvgPathOptions]. *)
Module Options.
Record t (num : Type) := mk {
  text : string;
  fontUrl : string;
  fontSize : option num;
  fill : option string;
  stroke : option string;
  strokeWidth : option string;
  kerning : option bool;
  x : option num;
  y : option num;
  width : option num;
  height : option num;
  background : option string;
  backgroundWidth : option num;
  backgroundHeight : option num;
  backgroundX : option num;
  backgroundY : option num;
  outputFormats : option (list OutputFormat)
}.
Arguments mk {num}.
Arguments text {num}.
Arguments fontUrl {num}.
Arguments fontSize {num}.
Arguments fill {num}.
Arguments stroke {num}.
Arguments strokeWidth {num}.
Arguments kerning {num}.
Arguments x {num}.
Arguments y {num}.
Arguments width {num}.
Arguments height {num}.
Arguments background {num}.
Arguments backgroundWidth {num}.
Arguments backgroundHeight {num}.
Arguments backgroundX {num}.
Arguments backgroundY {num}.
Arguments outputFormats {num}.
End Options.

(** [TextToSvgPathResult]; an absent [svgWithBackground] is [None]. *)
Module Result.
Record t := mk {
  svg : string;
  svgWithBackground : option string;
  pathData : string;
  pathElement : string
}.
End Result.

(** The object [result] of line 31, created with [{}] and filled by
    [result[key] = ...] with result objects: its own properties, and the
    result object that an assignment to [__proto__] has made its prototype
    ([None] while the prototype is [Object.prototype]). *)
Module ResultObject.
Record t := mk {
  own : list (string * Result.t);
  prototype : option Result.t
}.

(** [{}]. *)
Definition empty : t := mk [] None.

(** [result[k] = v]. *)
Definition assign (o : t) (k : string) (v : Result.t) : t :=
  if decide (k = "__proto__") then mk (own o) (Some v)
  else mk (obj_set (own o) k v) (prototype o).

(** The result object that reading [result[k]] gives: the own property, and
    for [k = "__proto__"], which is never an own property here, the
    prototype that was assigned.  [None] where the read gives no result
    object ([undefined], or a member of the prototype). *)
Definition read (o : t) (k : string) : option Result.t :=
  if decide (k = "__proto__") then prototype o else obj_get (own o) k.

(** [Object.keys(result)]. *)
Definition keys (o : t) : list string := Object_keys (own o).
End ResultObject.

(** The store after the assignments [result[k] = f k] for [k] in [ks]. *)
Definition assign_all (f : string -> Result.t) (ks : list string)
    (o : ResultObject.t) : ResultObject.t :=
  foldl (fun o k => ResultObject.assign o k (f k)) o ks.

(** The box reported by [path.getBoundingBox()]. *)
Module BoundingBox.
Record t (num : Type) := mk { x1 : num; y1 : num; x2 : num; y2 : num }.
Arguments mk {num}.
Arguments x1 {num}.
Arguments y1 {num}.
Arguments x2 {num}.
Arguments y2 {num}.
End BoundingBox.

(** What a call completes with: a value, or a thrown [Error] (its
    message). *)
Inductive Completion (A : Type) :=
| Normal (a : A)
| Throw (message : string).
Arguments Normal {A}.
Arguments Throw {A}.

(** [fetch(url)] resolves with a response or rejects. *)
Module Response.
Record t := mk {
  ok : bool;
  status : N;
  statusText : string;
  arrayBuffer : Completion (list Byte.byte)
}.
End Response.

(** The external calls a run of the module performs, in order.  A parse is
    recorded with the URL its bytes were fetched from. *)
Inductive Event :=
| EvFetch (url : string)
| EvParse (url : string) (fontData : list Byte.byte).

Definition is_fetch_of (u : string) (e : Event) : bool :=
  match e with
  | EvFetch u' => bool_decide (u' = u)
  | EvParse _ _ => false
  end.

Definition is_parse_of (u : string) (e : Event) : bool :=
  match e with
  | EvFetch _ => false
  | EvParse u' _ => bool_decide (u' = u)
  end.

(** How often [u] is fetched, resp. parsed, in a trace. *)
Definition fetch_count (u : string) (tr : list Event) : nat :=
  length (filter (fun e => is_fetch_of u e = true) tr).
Definition parse_count (u : string) (tr : list Event) : nat :=
  length (filter (fun e => is_parse_of u e = true) tr).

(** ** A monad for the effects of the module

    A computation reads and writes a store [S] (the object a loop fills),
    appends to the trace of external calls and completes normally or by a
    throw; the store as it is at the throw is what a handler sees. *)

Definition M (S A : Type) : Type := S -> list Event * S * Completion A.

Definition ret {S A} (a : A) : M S A := fun s => ([], s, Normal a).

Definition bind {S A B} (m : M S A) (f : A -> M S B) : M S B :=
  fun s =>
    match m s with
    | (t1, s1, Normal a) =>
        match f a s1 with
        | (t2, s2, c) => (t1 ++ t2, s2, c)
        end
    | (t1, s1, Throw e) => (t1, s1, Throw e)
    end.

Definition throw {S A} (message : string) : M S A :=
  fun s => ([], s, Throw message).

(** [try { m } catch (error) { h error.message }]. *)
Definition try_catch {S A} (m : M S A) (h : string -> M S A) : M S A :=
  fun s =>
    match m s with
    | (t1, s1, Normal a) => (t1, s1, Normal a)
    | (t1, s1, Throw e) =>
        match h e s1 with
        | (t2, s2, c) => (t1 ++ t2, s2, c)
        end
    end.

Definition emit {S} (e : Event) : M S unit := fun s => ([e], s, Normal tt).

Definition modify {S} (f : S -> S) : M S unit := fun s => ([], f s, Normal tt).

Definition get {S} : M S S := fun s => ([], s, Normal s).

(** The completion of an external call. *)
Definition lift {S A} (c : Completion A) : M S A := fun s => ([], s, c).

Declare Scope js_scope.
Delimit Scope js_scope with js.
Notation "x <- m ;; k" := (bind m (fun x => k))
  (at level 100, m at next level, right associativity) : js_scope.
Notation "m ;; k" := (bind m (fun _ => k))
  (at level 100, right associativity) : js_scope.

(** [for (const b of l) { body b }]. *)
Fixpoint for_of {S B} (l : list B) (body : B -> M S unit) : M S unit :=
  match l with
  | [] => ret tt
  | b :: l' => (body b ;; for_of l' body)%js
  end.

(** A loop that rebinds or mutates a local [a] besides the store. *)
Fixpoint for_of_acc {S A B} (l : list B) (body : A -> B -> M S A) (a : A)
  : M S A :=
  match l with
  | [] => ret a
  | b :: l' => (a' <- body a b ;; for_of_acc l' body a')%js
  end.

(** Reading [o[k]] where the code goes on to use the value as an object:
    on [undefined] the use throws a [TypeError]. *)
Definition get_defined {S V} (o : list (string * V)) (k : string) : M S V :=
  match obj_get o k with
  | Some v => ret v
  | None => throw "TypeError: undefined value"
  end.

(** ** The module [text-to-svg-path.ts] *)

(** A property value of the argument of [textToSvgPath]: the properties of a
    single request, or a request of its own under a label. *)
Inductive JSValue (num : Type) :=
| VString (s : string)
| VNumber (n : num)
| VBoolean (b : bool)
| VFormats (fs : list OutputFormat)
| VOptions (o : Options.t num).
Arguments VString {num}.
Arguments VNumber {num}.
Arguments VBoolean {num}.
Arguments VFormats {num}.
Arguments VOptions {num}.

(** The argument of [textToSvgPath]: its own properties, and the
    properties it inherits through its prototype chain below
    [Object.prototype], nearest first.  An object literal inherits
    nothing but the members of [Object.prototype]. *)
Module JSObject.
Record t (num : Type) := mk {
  own : list (string * JSValue num);
  inherited : list (string * JSValue num)
}.
Arguments mk {num}.
Arguments own {num}.
Arguments inherited {num}.

(** An object literal. *)
Definition plain {num} (own : list (string * JSValue num)) : t num :=
  mk own [].
End JSObject.

(** [k in o]: own and inherited properties alike. *)
Definition has_property {num} (o : JSObject.t num) (k : string) : bool :=
  bool_decide (k ∈ (JSObject.own o).*1)
  || bool_decide (k ∈ (JSObject.inherited o).*1)
  || bool_decide (k ∈ Object_prototype_names).

(** Reading [o[k]], for a [k] that is no member of [Object.prototype]: the
    own property, or else the nearest inherited one. *)
Definition get_property {num} (o : JSObject.t num) (k : string)
  : option (JSValue num) :=
  match obj_get (JSObject.own o) k with
  | Some v => Some v
  | None => obj_get (JSObject.inherited o) k
  end.

(** What the promise of [textToSvgPath] resolves with. *)
Inductive Resolved :=
| Single (r : Result.t)
| Multi (m : ResultObject.t).

Definition is_multi (c : Completion Resolved) : bool :=
  match c with
  | Normal (Multi _) => true
  | _ => false
  end.

Definition is_single (c : Completion Resolved) : bool :=
  match c with
  | Normal (Single _) => true
  | _ => false
  end.

Section TextToSvgPath.
Context {num : Type} `{JSNumber num}.

(** node-fetch and opentype.js. *)
Variable fetch : string -> Completion Response.t.
Context {Font Path : Type}.
Variable opentype_parse : list Byte.byte -> Completion Font.
Variable getPath :
  Font -> string -> num -> num -> num -> bool -> Completion Path.
Variable toPathData : Path -> N -> string.
Variable getBoundingBox : Path -> BoundingBox.t num.

(** *** [processTextWithFont] (lines 134-227) *)

(** The arrow function [shouldGenerate] (lines 153-158). *)
Definition shouldGenerate (outputFormats : option (list OutputFormat))
    (format : OutputFormat) : bool :=
  match outputFormats with
  | None => true
  | Some [] => true
  | Some fs => bool_decide (format ∈ fs)
  end.

(** The path element template of lines 173-178, repeated at lines
    198-203. *)
Definition pathElementMarkup (pathData fill stroke strokeWidth : string)
  : string :=
  template
    [ "<path "; newline;
      "  d="; dquote; pathData; dquote; " "; newline;
      "  fill="; dquote; fill; dquote; newline;
      "  stroke="; dquote; stroke; dquote; newline;
      "  stroke-width="; dquote; strokeWidth; dquote; newline;
      "/>" ].

(** The template of lines 192-204. *)
Definition svgMarkup (width height viewX viewY : num) (inner : string)
  : string :=
  template
    [ "<svg "; newline;
      "xmlns="; dquote; "http://www.w3.org/2000/svg"; dquote; " "; newline;
      "width="; dquote; num_toString width; dquote; " "; newline;
      "height="; dquote; num_toString height; dquote; " "; newline;
      "viewBox="; dquote;
        num_toString viewX; " "; num_toString viewY; " ";
        num_toString width; " "; num_toString height; dquote; newline;
      ">"; newline;
      inner; newline;
      "</svg>" ].

(** The template of lines 209-223. *)
Definition svgWithBackgroundMarkup
    (backgroundWidth backgroundHeight backgroundX backgroundY : num)
    (background pathData fill stroke strokeWidth : string) : string :=
  template
    [ "<svg "; newline;
      "xmlns="; dquote; "http://www.w3.org/2000/svg"; dquote; " "; newline;
      "width="; dquote; num_toString backgroundWidth; dquote; " "; newline;
      "height="; dquote; num_toString backgroundHeight; dquote; " ";
        newline;
      "viewBox="; dquote; "0 0 "; num_toString backgroundWidth; " ";
        num_toString backgroundHeight; dquote; newline;
      ">"; newline;
      "<rect x="; dquote; "0"; dquote; " y="; dquote; "0"; dquote;
        " width="; dquote; num_toString backgroundWidth; dquote;
        " height="; dquote; num_toString backgroundHeight; dquote;
        " fill="; dquote; background; dquote; " />"; newline;
      "<path "; newline;
      "  d="; dquote; pathData; dquote; " "; newline;
      "  transform="; dquote; "translate("; num_toString backgroundX; ", ";
        num_toString backgroundY; ")"; dquote; " "; newline;
      "  fill="; dquote; fill; dquote; newline;
      "  stroke="; dquote; stroke; dquote; newline;
      "  stroke-width="; dquote; strokeWidth; dquote; newline;
      "/>"; newline;
      "</svg>" ].

(** [a || b] on an optional number. *)
Definition num_or (a : option num) (b : num) : num :=
  match a with
  | Some n => if truthy_num n then n else b
  | None => b
  end.

(** [a || b] on strings. *)
Definition string_or (a b : string) : string :=
  if truthy_string a then a else b.

Definition processTextWithFont (options : Options.t num) (font : Font)
  : Completion Result.t :=
  let text := Options.text options in
  let fontSize := default (num_of_Z 72) (Options.fontSize options) in
  let fill := default "#000000" (Options.fill options) in
  let stroke := default "none" (Options.stroke options) in
  let strokeWidth := default "0" (Options.strokeWidth options) in
  let kerning := default true (Options.kerning options) in
  let x := default (num_of_Z 0) (Options.x options) in
  let y := default fontSize (Options.y options) in
  let background := Options.background options in
  let backgroundWidth :=
    default (num_of_Z 400) (Options.backgroundWidth options) in
  let backgroundHeight :=
    default (num_of_Z 200) (Options.backgroundHeight options) in
  let backgroundX := default (num_of_Z 50) (Options.backgroundX options) in
  let backgroundY := default (num_of_Z 120) (Options.backgroundY options) in
  let outputFormats := Options.outputFormats options in
  match getPath font text x y fontSize kerning with
  | Throw e => Throw e
  | Normal path =>
      let pathData := toPathData path 2 in
      let pathElement :=
        if shouldGenerate outputFormats FpathElement
        then pathElementMarkup pathData fill stroke strokeWidth
        else EmptyString in
      let svg :=
        if shouldGenerate outputFormats Fsvg then
          let bbox := getBoundingBox path in
          let padding := num_mul fontSize num_0_2 in
          let width :=
            num_or (Options.width options)
              (Math_ceil
                 (num_add
                    (num_sub (BoundingBox.x2 bbox) (BoundingBox.x1 bbox))
                    (num_mul padding (num_of_Z 2)))) in
          let height :=
            num_or (Options.height options)
              (Math_ceil
                 (num_add
                    (num_sub (BoundingBox.y2 bbox) (BoundingBox.y1 bbox))
                    (num_mul padding (num_of_Z 2)))) in
          svgMarkup width height
            (num_sub (BoundingBox.x1 bbox) padding)
            (num_sub (BoundingBox.y1 bbox) padding)
            (string_or pathElement
               (pathElementMarkup pathData fill stroke strokeWidth))
        else EmptyString in
      let svgWithBackground :=
        if shouldGenerate outputFormats FsvgWithBackground
           && truthy_opt_string background
        then
          Some (svgWithBackgroundMarkup backgroundWidth backgroundHeight
                  backgroundX backgroundY (default EmptyString background)
                  pathData fill stroke strokeWidth)
        else None in
      Normal
        {| Result.svg := svg;
           Result.svgWithBackground := svgWithBackground;
           Result.pathData := pathData;
           Result.pathElement := pathElement |}
  end.

(** *** Fetching and parsing a font

    Lines 49-60 of [textToSvgPath] and lines 110-121 of
    [processSingleText] are the same statements. *)
Definition loadFont {S} (fontUrl : string) : M S Font :=
  (emit (EvFetch fontUrl) ;;
   fontResponse <- lift (fetch fontUrl) ;;
   (if negb (Response.ok fontResponse)
    then throw (template [ "Failed to fetch font: ";
                           Response.statusText fontResponse; " (";
                           pretty (Response.status fontResponse); ")" ])
    else ret tt) ;;
   fontData <- lift (Response.arrayBuffer fontResponse) ;;
   emit (EvParse fontUrl fontData) ;;
   lift (opentype_parse fontData))%js.

(** *** [processSingleText] (lines 87-129)

    The promise of [processTextWithFont] is returned from inside [try]
    without [await]: the handler covers the statements before it, and a
    rejection of that promise reaches the caller as it is. *)
Definition processSingleText (options : Options.t num) : M unit Result.t :=
  (returned <-
     try_catch
       (font <- loadFont (Options.fontUrl options) ;;
        ret (processTextWithFont options font))
       (fun error_message =>
          let errorMessage := string_or error_message "Unknown error" in
          throw (template [ "Error generating SVG path: "; errorMessage ])) ;;
   lift returned)%js.

(** *** [textToSvgPath], the multi-text case (lines 27-81) *)

(** The literal of lines 72-76. *)
Definition errorResult (error_message : string) : Result.t :=
  {| Result.svg :=
       template [ "<svg><text>Error: "; error_message; "</text></svg>" ];
     Result.svgWithBackground := None;
     Result.pathData := EmptyString;
     Result.pathElement := EmptyString |}.

(** The message of the [TypeError] of [fontGroups[opts.fontUrl].push(key)]
    (line 42) when what is read there is a member of [Object.prototype],
    which has no [push]. *)
Definition push_is_not_a_function : string :=
  "fontGroups[opts.fontUrl].push is not a function".

(** The body of the loop of lines 37-43 on the local [fontGroups], an object
    created with [{}] (line 34).  [!fontGroups[opts.fontUrl]] holds when
    the read is [undefined]: an array and a member of [Object.prototype]
    are both truthy.  [push] changes the array in place. *)
Definition groupStep {S} (multiOptions : list (string * Options.t num))
    (fontGroups : list (string * list string)) (key : string)
  : M S (list (string * list string)) :=
  (opts <- get_defined multiOptions key ;;
   let fontGroups :=
     match obj_lookup fontGroups (Options.fontUrl opts) with
     | Undefined => obj_assign fontGroups (Options.fontUrl opts) []
     | Own _ | Inherited => fontGroups
     end in
   match obj_lookup fontGroups (Options.fontUrl opts) with
   | Own group =>
       ret (obj_set fontGroups (Options.fontUrl opts) (group ++ [key]))
   | Inherited => throw push_is_not_a_function
   | Undefined => throw "TypeError: undefined value"
   end)%js.

(** The loop of lines 37-43. *)
Definition groupByFontUrl {S} (multiOptions : list (string * Options.t num))
    (keys : list string) : M S (list (string * list string)) :=
  for_of_acc keys (groupStep multiOptions) [].

(** The body of the loop of lines 46-79; the store is [result], an object
    created with [{}] (line 31). *)
Definition processFontGroup (multiOptions : list (string * Options.t num))
    (fontGroups : list (string * list string)) (fontUrl : string)
  : M ResultObject.t unit :=
  try_catch
    (font <- loadFont fontUrl ;;
     group <- get_defined fontGroups fontUrl ;;
     for_of group
       (fun key =>
          (opts <- get_defined multiOptions key ;;
           generated <- lift (processTextWithFont opts font) ;;
           modify (fun result =>
                     ResultObject.assign result key generated))%js))%js
    (fun error_message =>
       (group <- get_defined fontGroups fontUrl ;;
        for_of group
          (fun key =>
             modify (fun result =>
                       ResultObject.assign result key
                         (errorResult error_message))))%js).

Definition textToSvgPath_multi (multiOptions : list (string * Options.t num))
  : M ResultObject.t ResultObject.t :=
  (let keys := Object_keys multiOptions in
   fontGroups <- groupByFontUrl multiOptions keys ;;
   for_of (Object_keys fontGroups)
     (processFontGroup multiOptions fontGroups) ;;
   get)%js.

(** *** The argument of [textToSvgPath] under its two types *)

Definition required_string (o : JSObject.t num) (k : string)
  : option string :=
  match get_property o k with
  | Some (VString s) => Some s
  | _ => None
  end.

Definition optional_string (o : JSObject.t num) (k : string)
  : option (option string) :=
  match get_property o k with
  | None => Some None
  | Some (VString s) => Some (Some s)
  | Some _ => None
  end.

Definition optional_number (o : JSObject.t num) (k : string)
  : option (option num) :=
  match get_property o k with
  | None => Some None
  | Some (VNumber n) => Some (Some n)
  | Some _ => None
  end.

Definition optional_boolean (o : JSObject.t num) (k : string)
  : option (option bool) :=
  match get_property o k with
  | None => Some None
  | Some (VBoolean b) => Some (Some b)
  | Some _ => None
  end.

Definition optional_formats (o : JSObject.t num) (k : string)
  : option (option (list OutputFormat)) :=
  match get_property o k with
  | None => Some None
  | Some (VFormats fs) => Some (Some fs)
  | Some _ => None
  end.

(** [options as TextToSvgPathOptions], the properties read as line 88-99
    and 135-150 read them: [None] when the object does not have that
    type. *)
Definition asOptions (o : JSObject.t num)
  : option (Options.t num) :=
  text ← required_string o "text";
  fontUrl ← required_string o "fontUrl";
  fontSize ← optional_number o "fontSize";
  fill ← optional_string o "fill";
  stroke ← optional_string o "stroke";
  strokeWidth ← optional_string o "strokeWidth";
  kerning ← optional_boolean o "kerning";
  x ← optional_number o "x";
  y ← optional_number o "y";
  width ← optional_number o "width";
  height ← optional_number o "height";
  background ← optional_string o "background";
  backgroundWidth ← optional_number o "backgroundWidth";
  backgroundHeight ← optional_number o "backgroundHeight";
  backgroundX ← optional_number o "backgroundX";
  backgroundY ← optional_number o "backgroundY";
  outputFormats ← optional_formats o "outputFormats";
  Some (Options.mk text fontUrl fontSize fill stroke strokeWidth kerning
          x y width height background backgroundWidth backgroundHeight
          backgroundX backgroundY outputFormats).

(** [options as MultiTextToSvgPathOptions<T>]: every property is a
    request. *)
Fixpoint asMultiOptions (o : list (string * JSValue num))
  : option (list (string * Options.t num)) :=
  match o with
  | [] => Some []
  | (k, VOptions opts) :: o' =>
      m ← asMultiOptions o'; Some ((k, opts) :: m)
  | _ => None
  end.

(** The properties of a labelled collection as a property read finds them:
    the own ones, then the inherited ones. *)
Definition asRequests (o : JSObject.t num)
  : option (list (string * Options.t num)) :=
  own ← asMultiOptions (JSObject.own o);
  inherited ← asMultiOptions (JSObject.inherited o);
  Some (own ++ inherited).

(** *** [textToSvgPath] (lines 18-82) *)

Definition settle {S A} (wrap : A -> Resolved)
    (run : list Event * S * Completion A)
  : list Event * Completion Resolved :=
  match run with
  | (tr, _, Normal a) => (tr, Normal (wrap a))
  | (tr, _, Throw e) => (tr, Throw e)
  end.

(** What [fetch] makes of a request object given for a URL: the string it
    converts to. *)
Definition object_toString : string := "[object Object]".

(** [processSingleText] (lines 108-128) on a labelled collection that has
    the labels [text] and [fontUrl]: the [fontUrl] it reads is a request.
    When the font cannot be had the call rejects as for any request.  When
    it can, [processTextWithFont] hands the font engine a request for the
    text; the embedding does not follow the engine there, and the run has
    no value ([None]). *)
Definition processSingleText_collection
  : option (list Event * Completion Resolved) :=
  match
    try_catch
      (font <- loadFont object_toString ;; ret (Some font))%js
      (fun error_message =>
         let errorMessage := string_or error_message "Unknown error" in
         throw (template [ "Error generating SVG path: "; errorMessage ]))
      tt
  with
  | (tr, _, Throw e) => Some (tr, Throw e)
  | (tr, _, Normal _) => None
  end.

(** The result is the trace of external calls and what the promise settles
    with.  It is [None] when the argument has neither of the two declared
    types, and where [processSingleText_collection] says. *)
Definition textToSvgPath (options : JSObject.t num)
  : option (list Event * Completion Resolved) :=
  if has_property options "text" && has_property options "fontUrl" then
    match asOptions options with
    | Some single => Some (settle Single (processSingleText single tt))
    | None => _ ← asRequests options; processSingleText_collection
    end
  else
    multiOptions ← asMultiOptions (JSObject.own options);
    Some (settle Multi (textToSvgPath_multi multiOptions ResultObject.empty)).

(** *** Vocabulary of the statements *)

(** The external calls and the completion of fetching and parsing the
    font at [fontUrl]. *)
Definition resolveFont (fontUrl : string) : list Event * Completion Font :=
  match loadFont fontUrl tt with
  | (tr, _, c) => (tr, c)
  end.

(** The bytes handed to the parser for [fontUrl]: those of a response with
    a success status whose body could be read. *)
Definition font_bytes (fontUrl : string) : option (list Byte.byte) :=
  match fetch fontUrl with
  | Normal r =>
      if Response.ok r then
        match Response.arrayBuffer r with
        | Normal d => Some d
        | Throw _ => None
        end
      else None
  | Throw _ => None
  end.

(** The font URL of the request under a label. *)
Definition url_of (multiOptions : list (string * Options.t num))
    (key : string) : option string :=
  Options.fontUrl <$> obj_get multiOptions key.

(** The labels of the requests that name [fontUrl], in the order of
    [Object.keys]. *)
Definition group_of (multiOptions : list (string * Options.t num))
    (fontUrl : string) : list string :=
  filter (fun key => url_of multiOptions key = Some fontUrl)
    (Object_keys multiOptions).

(** Generation for the request under a label. *)
Definition generated (multiOptions : list (string * Options.t num))
    (font : Font) (key : string) : Completion Result.t :=
  match obj_get multiOptions key with
  | Some opts => processTextWithFont opts font
  | None => Throw "TypeError: undefined value"
  end.

Definition generated_value (multiOptions : list (string * Options.t num))
    (font : Font) (key : string) : Result.t :=
  match generated multiOptions font key with
  | Normal r => r
  | Throw e => errorResult e
  end.

(** The message of the first throw among the completions. *)
Fixpoint first_throw {A} (cs : list (Completion A)) : option string :=
  match cs with
  | [] => None
  | Normal _ :: cs' => first_throw cs'
  | Throw e :: _ => Some e
  end.

(** The labels generated before the first throw. *)
Fixpoint before_throw (multiOptions : list (string * Options.t num))
    (font : Font) (keys : list string) : list string :=
  match keys with
  | [] => []
  | key :: keys' =>
      match generated multiOptions font key with
      | Normal _ => key :: before_throw multiOptions font keys'
      | Throw _ => []
      end
  end.

(** [result] after the font group of [fontUrl] has been processed. *)
Definition group_store (multiOptions : list (string * Options.t num))
    (fontUrl : string) (group : list string)
    (result : ResultObject.t) : ResultObject.t :=
  match (resolveFont fontUrl).2 with
  | Throw e => assign_all (fun _ => errorResult e) group result
  | Normal font =>
      let stored :=
        assign_all (generated_value multiOptions font)
          (before_throw multiOptions font group) result in
      match first_throw (generated multiOptions font <$> group) with
      | Some e => assign_all (fun _ => errorResult e) group stored
      | None => stored
      end
  end.

(** What a label of [group] ends with when [group] is processed with the
    font at [fontUrl]. *)
Definition group_value (multiOptions : list (string * Options.t num))
    (fontUrl : string) (group : list string) (key : string) : Result.t :=
  match (resolveFont fontUrl).2 with
  | Throw e => errorResult e
  | Normal font =>
      match first_throw (generated multiOptions font <$> group) with
      | Some e => errorResult e
      | None => generated_value multiOptions font key
      end
  end.

(** What a label of the font group of [fontUrl] ends with. *)
Definition label_result (multiOptions : list (string * Options.t num))
    (fontUrl : string) (key : string) : Result.t :=
  group_value multiOptions fontUrl (group_of multiOptions fontUrl) key.

(** [result] after the font groups of [fontUrls] have been processed in
    turn. *)
Definition groups_store (multiOptions : list (string * Options.t num))
    (fontUrls : list string) (result : ResultObject.t) : ResultObject.t :=
  foldl (fun result fontUrl =>
           group_store multiOptions fontUrl (group_of multiOptions fontUrl)
             result)
    result fontUrls.

(** The value of [fontGroups[fontUrl]] once [keys] have been grouped. *)
Definition group_lookup (multiOptions : list (string * Options.t num))
    (keys : list string) (fontUrl : string) : option (list string) :=
  match filter (fun key => url_of multiOptions key = Some fontUrl) keys with
  | [] => None
  | group => Some group
  end.
(** The request with its [outputFormats] replaced. *)
Definition setOutputFormats (outputFormats : option (list OutputFormat))
    (o : Options.t num) : Options.t num :=
  Options.mk (Options.text o) (Options.fontUrl o) (Options.fontSize o)
    (Options.fill o) (Options.stroke o) (Options.strokeWidth o)
    (Options.kerning o) (Options.x o) (Options.y o) (Options.width o)
    (Options.height o) (Options.background o) (Options.backgroundWidth o)
    (Options.backgroundHeight o) (Options.backgroundX o)
    (Options.backgroundY o) outputFormats.

(** The request with the defaults that [types.ts] documents written out:
    [fontSize] 72, [fill] ['#000000'], [stroke] ['none'], [strokeWidth]
    ['0'], [kerning] true, [x] 0, [y] the font size, and 400, 200, 50, 120
    for the background canvas and offset. *)
Definition withDefaults (o : Options.t num) : Options.t num :=
  let fontSize := default (num_of_Z 72) (Options.fontSize o) in
  Options.mk (Options.text o) (Options.fontUrl o) (Some fontSize)
    (Some (default "#000000" (Options.fill o)))
    (Some (default "none" (Options.stroke o)))
    (Some (default "0" (Options.strokeWidth o)))
    (Some (default true (Options.kerning o)))
    (Some (default (num_of_Z 0) (Options.x o)))
    (Some (default fontSize (Options.y o)))
    (Options.width o) (Options.height o) (Options.background o)
    (Some (default (num_of_Z 400) (Options.backgroundWidth o)))
    (Some (default (num_of_Z 200) (Options.backgroundHeight o)))
    (Some (default (num_of_Z 50) (Options.backgroundX o)))
    (Some (default (num_of_Z 120) (Options.backgroundY o)))
    (Options.outputFormats o).

(** The request under [key] names a member of [Object.prototype] as its
    [fontUrl]. *)
Definition names_inherited (multiOptions : list (string * Options.t num))
    (key : string) : bool :=
  match obj_get multiOptions key with
  | Some opts => bool_decide (Options.fontUrl opts ∈ Object_prototype_names)
  | None => false
  end.

(** Some request of the collection names a member of [Object.prototype]
    as its [fontUrl]. *)
Definition fontUrl_is_inherited (multiOptions : list (string * Options.t num))
  : bool :=
  existsb (names_inherited multiOptions) (Object_keys multiOptions).

(** How many fetches a trace holds, whatever the URL. *)
Definition is_fetch (e : Event) : bool :=
  match e with
  | EvFetch _ => true
  | EvParse _ _ => false
  end.

Definition total_fetches (tr : list Event) : nat :=
  length (filter (fun e => is_fetch e = true) tr).
End TextToSvgPath.

(** ** A small world to run the module in

    Exact rationals for numbers and a font engine that draws every
    character as a square of side [fontSize]. *)
Module Demo.
Definition Q_toString (q : Q) : string :=
  let r := Qred q in
  match Qden r with
  | xH => pretty (Qnum r)
  | d => template [ pretty (Qnum r); "/"; pretty (Zpos d) ]
  end.

Lemma Q_truthy_of_Z (z : Z) :
  negb (Qeq_bool (inject_Z z) 0) = negb (z =? 0)%Z.
Proof.
  unfold Qeq_bool, inject_Z. cbn [Qnum Qden].
  rewrite Z.mul_1_r, Z.mul_0_l. reflexivity.
Qed.

Lemma Q_ceil_of_Z (z : Z) : inject_Z (Qceiling (inject_Z z)) = inject_Z z.
Proof. rewrite Qceiling_Z. reflexivity. Qed.

#[global] Instance Q_number : JSNumber Q := {|
  num_of_Z := inject_Z;
  num_0_2 := (1 # 5)%Q;
  num_add := Qplus;
  num_sub := Qminus;
  num_mul := Qmult;
  Math_ceil := fun q => inject_Z (Qceiling q);
  truthy_num := fun q => negb (Qeq_bool q 0);
  num_toString := Q_toString;
  truthy_num_of_Z := Q_truthy_of_Z;
  Math_ceil_of_Z := Q_ceil_of_Z
|}.

Definition okResponse (body : list Byte.byte) : Response.t :=
  {| Response.ok := true;
     Response.status := 200%N;
     Response.statusText := "OK";
     Response.arrayBuffer := Normal body |}.

(** Four servers: a font, bytes that are no font (with and without an
    error message from the parser), and a missing file; any other URL is
    unreachable. *)
Definition fetch (url : string) : Completion Response.t :=
  if decide (url = "https://fonts.test/square.ttf") then
    Normal (okResponse [Byte.x01])
  else if decide (url = "https://fonts.test/garbage.ttf") then
    Normal (okResponse [Byte.x02])
  else if decide (url = "https://fonts.test/quiet.ttf") then
    Normal (okResponse [Byte.x03])
  else if decide (url = "https://fonts.test/missing.ttf") then
    Normal {| Response.ok := false;
              Response.status := 404%N;
              Response.statusText := "Not Found";
              Response.arrayBuffer := Normal [] |}
  else Throw "request failed".

(** The font object: the glyphs it has no outline for. *)
Definition Font : Type := list ascii.

Definition opentype_parse (fontData : list Byte.byte) : Completion Font :=
  match fontData with
  | [Byte.x01] => Normal [ "!"%char ]
  | [Byte.x03] => Throw EmptyString
  | _ => Throw "Unsupported OpenType signature"
  end.

(** A path is its bounding box. *)
Definition Path : Type := BoundingBox.t Q.

Definition getPath (font : Font) (text : string) (x y fontSize : Q)
    (kerning : bool) : Completion Path :=
  if existsb (fun c => bool_decide (c ∈ font)) (list_ascii_of_string text)
  then Throw "no outline for a glyph"
  else
    Normal
      {| BoundingBox.x1 := x;
         BoundingBox.y1 := (y - fontSize)%Q;
         BoundingBox.x2 :=
           (x + inject_Z (Z.of_nat (String.length text)) * fontSize)%Q;
         BoundingBox.y2 := y |}.

Definition toPathData (path : Path) (precision : N) : string :=
  template
    [ "M"; Q_toString (BoundingBox.x1 path);
      " "; Q_toString (BoundingBox.y1 path);
      "H"; Q_toString (BoundingBox.x2 path);
      "V"; Q_toString (BoundingBox.y2 path);
      "H"; Q_toString (BoundingBox.x1 path); "Z" ].

Definition getBoundingBox (path : Path) : BoundingBox.t Q := path.

Definition processTextWithFont :=
  processTextWithFont getPath toPathData getBoundingBox.
Definition processSingleText :=
  processSingleText fetch opentype_parse getPath toPathData getBoundingBox.
Definition textToSvgPath :=
  textToSvgPath fetch opentype_parse getPath toPathData getBoundingBox.

(** A request with only the two required properties. *)
Definition request (text fontUrl : string) : Options.t Q :=
  Options.mk text fontUrl None None None None None None None None None
    None None None None None None.

Definition with_size (width height : option Q) (o : Options.t Q)
  : Options.t Q :=
  Options.mk (Options.text o) (Options.fontUrl o) (Options.fontSize o)
    (Options.fill o) (Options.stroke o) (Options.strokeWidth o)
    (Options.kerning o) (Options.x o) (Options.y o) width height
    (Options.background o) (Options.backgroundWidth o)
    (Options.backgroundHeight o) (Options.backgroundX o)
    (Options.backgroundY o) (Options.outputFormats o).

Definition with_fontSize (fontSize : Q) (o : Options.t Q) : Options.t Q :=
  Options.mk (Options.text o) (Options.fontUrl o) (Some fontSize)
    (Options.fill o) (Options.stroke o) (Options.strokeWidth o)
    (Options.kerning o) (Options.x o) (Options.y o) (Options.width o)
    (Options.height o) (Options.background o) (Options.backgroundWidth o)
    (Options.backgroundHeight o) (Options.backgroundX o)
    (Options.backgroundY o) (Options.outputFormats o).

Definition with_background (background : string) (o : Options.t Q)
  : Options.t Q :=
  Options.mk (Options.text o) (Options.fontUrl o) (Options.fontSize o)
    (Options.fill o) (Options.stroke o) (Options.strokeWidth o)
    (Options.kerning o) (Options.x o) (Options.y o) (Options.width o)
    (Options.height o) (Some background) (Options.backgroundWidth o)
    (Options.backgroundHeight o) (Options.backgroundX o)
    (Options.backgroundY o) (Options.outputFormats o).

Definition with_formats (outputFormats : list OutputFormat)
    (o : Options.t Q) : Options.t Q :=
  Options.mk (Options.text o) (Options.fontUrl o) (Options.fontSize o)
    (Options.fill o) (Options.stroke o) (Options.strokeWidth o)
    (Options.kerning o) (Options.x o) (Options.y o) (Options.width o)
    (Options.height o) (Options.background o) (Options.backgroundWidth o)
    (Options.backgroundHeight o) (Options.backgroundX o)
    (Options.backgroundY o) (Some outputFormats).

Definition square : string := "https://fonts.test/square.ttf".
Definition garbage : string := "https://fonts.test/garbage.ttf".
Definition quiet : string := "https://fonts.test/quiet.ttf".
Definition missing : string := "https://fonts.test/missing.ttf".

Definition squareFont : Font := [ "!"%char ].
(** A labelled collection: two requests on the font that resolves, the
    second of which cannot be drawn, and one on the missing file. *)
Definition batch : list (string * Options.t Q) :=
  [ ("a", request "A" square);
    ("b", request "B" missing);
    ("c", request "!" square) ].

(** The object literal of a labelled collection. *)
Definition collection (requests : list (string * Options.t Q))
  : JSObject.t Q :=
  JSObject.plain (map (fun kv => (kv.1, VOptions kv.2)) requests).

Definition batchArgument : JSObject.t Q := collection batch.

(** A collection whose requests all name the missing file. *)
Definition missingArgument : JSObject.t Q :=
  collection [ ("a", request "A" missing); ("b", request "B" missing) ].

(** Single requests. *)
Definition singleArgument (text fontUrl : string) : JSObject.t Q :=
  JSObject.plain [ ("text", VString text); ("fontUrl", VString fontUrl) ].

(** A single request whose two required properties are inherited, as those
    of [Object.create({ text, fontUrl })]. *)
Definition inheritingArgument (text fontUrl : string) : JSObject.t Q :=
  JSObject.mk [] [ ("text", VString text); ("fontUrl", VString fontUrl) ].

(** A collection one request of which names a member of
    [Object.prototype] as its font URL. *)
Definition constructorBatch : list (string * Options.t Q) :=
  [ ("a", request "A" square);
    ("c", request "!" square);
    ("z", request "Z" "constructor") ].

(** A collection with the label [__proto__], as [JSON.parse] gives it. *)
Definition protoBatch : list (string * Options.t Q) :=
  [ ("__proto__", request "A" missing); ("b", request "B" square) ].

(** A font group with the label [__proto__], whose request cannot be
    drawn. *)
Definition protoGroupBatch : list (string * Options.t Q) :=
  [ ("a", request "A" square); ("__proto__", request "!" square) ].

(** The servers at a later time: the missing file is there. *)
Definition fetch_later (url : string) : Completion Response.t :=
  if decide (url = "https://fonts.test/missing.ttf") then
    Normal (okResponse [Byte.x01])
  else fetch url.

(** The result generated with the font that resolves. *)
Definition generate (options : Options.t Q) : Result.t :=
  match processTextWithFont options squareFont with
  | Normal r => r
  | Throw e => errorResult e
  end.
End Demo.

(** * Properties *)

(** ** Objects *)

Section ObjectFacts.
Context {V : Type}.
Implicit Types (o : list (string * V)) (k : string) (v : V).

Lemma obj_get_set o k v k' :
  obj_get (obj_set o k v) k' = if decide (k = k') then Some v else obj_get o k'.
Proof.
  induction o as [|[k0 v0] o IH]; cbn.
  - reflexivity.
  - destruct (decide (k0 = k)) as [->|Hne]; cbn.
    + destruct (decide (k = k')); reflexivity.
    + rewrite IH. destruct (decide (k0 = k')) as [->|]; [|reflexivity].
      destruct (decide (k = k')); congruence.
Qed.

Lemma obj_get_set_eq o k v : obj_get (obj_set o k v) k = Some v.
Proof. rewrite obj_get_set. destruct (decide (k = k)); congruence. Qed.

Lemma obj_get_set_ne o k v k' :
  k ≠ k' → obj_get (obj_set o k v) k' = obj_get o k'.
Proof. intros. rewrite obj_get_set. destruct (decide (k = k')); congruence. Qed.

Lemma obj_get_is_Some o k : k ∈ o.*1 ↔ is_Some (obj_get o k).
Proof.
  induction o as [|[k0 v0] o IH]; cbn.
  - split; [intros Hin; inversion Hin | intros [? ?]; discriminate].
  - rewrite elem_of_cons, IH.
    destruct (decide (k0 = k)) as [->|Hne].
    + split; [eauto | auto].
    + split; [intros [Heq | Hs]; [congruence | exact Hs] | auto].
Qed.

Lemma obj_get_Some_elem_of o k v : obj_get o k = Some v → k ∈ o.*1.
Proof. intros Hget. apply obj_get_is_Some. eauto. Qed.

Lemma elem_of_obj_set_keys o k v k' :
  k' ∈ (obj_set o k v).*1 ↔ k' = k ∨ k' ∈ o.*1.
Proof.
  rewrite !obj_get_is_Some, obj_get_set.
  destruct (decide (k = k')) as [->|Hne].
  - split; [auto | eauto].
  - split; [auto | intros [Heq | Hs]; [congruence | exact Hs]].
Qed.

Lemma NoDup_obj_set_keys o k v : NoDup o.*1 → NoDup (obj_set o k v).*1.
Proof.
  induction o as [|[k0 v0] o IH]; cbn; intros Hnd.
  - apply NoDup_singleton.
  - apply NoDup_cons in Hnd as [Hnotin Hnd].
    destruct (decide (k0 = k)) as [->|Hne]; cbn.
    + apply NoDup_cons. auto.
    + apply NoDup_cons. split; [|auto].
      rewrite elem_of_obj_set_keys. intros [Heq | Hin]; congruence.
Qed.

Lemma Object_keys_Permutation o : Object_keys o ≡ₚ o.*1.
Proof.
  unfold Object_keys. rewrite merge_sort_Permutation.
  apply filter_app_complement.
Qed.

Lemma elem_of_Object_keys o k : k ∈ Object_keys o ↔ k ∈ o.*1.
Proof. rewrite Object_keys_Permutation. reflexivity. Qed.

Lemma NoDup_Object_keys o : NoDup o.*1 → NoDup (Object_keys o).
Proof. rewrite Object_keys_Permutation. auto. Qed.

Lemma obj_lookup_inherited o k :
  obj_get o k = None → k ∈ Object_prototype_names →
  obj_lookup o k = Inherited.
Proof.
  intros Hget Hin. unfold obj_lookup. rewrite Hget.
  rewrite bool_decide_eq_true_2 by exact Hin. reflexivity.
Qed.

Lemma obj_lookup_not_inherited o k :
  k ∉ Object_prototype_names →
  obj_lookup o k
  = match obj_get o k with Some v => Own v | None => Undefined end.
Proof.
  intros Hnotin. unfold obj_lookup. destruct (obj_get o k); [reflexivity|].
  rewrite bool_decide_eq_false_2 by exact Hnotin. reflexivity.
Qed.

Lemma obj_get_Some_elem_of_pair o k v : obj_get o k = Some v → (k, v) ∈ o.
Proof.
  induction o as [|[k0 v0] o IH]; cbn; [discriminate|].
  destruct (decide (k0 = k)) as [->|Hne].
  - intros [= ->]. apply elem_of_cons. auto.
  - intros Hget. apply elem_of_cons. auto.
Qed.

Lemma obj_get_head k v o : obj_get ((k, v) :: o) k = Some v.
Proof. cbn. destruct (decide (k = k)); congruence. Qed.
End ObjectFacts.

(** *** The object [result] *)

Lemma read_assign (o : ResultObject.t) (k : string) (v : Result.t)
    (k' : string) :
  ResultObject.read (ResultObject.assign o k v) k'
  = if decide (k = k') then Some v else ResultObject.read o k'.
Proof.
  unfold ResultObject.read, ResultObject.assign.
  destruct (decide (k = "__proto__")) as [->|Hne]; cbn.
  - destruct (decide (k' = "__proto__")) as [->|Hne'].
    + rewrite decide_True by reflexivity. reflexivity.
    + rewrite decide_False by congruence. reflexivity.
  - destruct (decide (k' = "__proto__")) as [->|Hne'].
    + rewrite decide_False by exact Hne. reflexivity.
    + apply obj_get_set.
Qed.

Lemma elem_of_assign_keys (o : ResultObject.t) (k : string) (v : Result.t)
    (k' : string) :
  k' ∈ (ResultObject.own (ResultObject.assign o k v)).*1
  ↔ (k' = k ∧ k ≠ "__proto__") ∨ k' ∈ (ResultObject.own o).*1.
Proof.
  unfold ResultObject.assign.
  destruct (decide (k = "__proto__")) as [->|Hne]; cbn.
  - split; [auto | intros [[_ Hne] | Hin]; [congruence | exact Hin]].
  - rewrite elem_of_obj_set_keys. tauto.
Qed.

Lemma NoDup_assign_keys (o : ResultObject.t) (k : string) (v : Result.t) :
  NoDup (ResultObject.own o).*1 →
  NoDup (ResultObject.own (ResultObject.assign o k v)).*1.
Proof.
  unfold ResultObject.assign.
  destruct (decide (k = "__proto__")); cbn; [auto|].
  apply NoDup_obj_set_keys.
Qed.

Lemma assign_all_read (f : string → Result.t) (ks : list string)
    (o : ResultObject.t) (k : string) :
  ResultObject.read (assign_all f ks o) k
  = if decide (k ∈ ks) then Some (f k) else ResultObject.read o k.
Proof.
  unfold assign_all. revert o.
  induction ks as [|k0 ks IH]; intros o; cbn.
  - rewrite decide_False; [reflexivity|]. intros Hin. inversion Hin.
  - rewrite IH. destruct (decide (k ∈ ks)) as [Hin|Hnotin].
    + rewrite decide_True; [reflexivity | apply elem_of_cons; auto].
    + rewrite read_assign. destruct (decide (k0 = k)) as [->|Hne].
      * rewrite decide_True; [reflexivity | apply elem_of_cons; auto].
      * rewrite decide_False; [reflexivity|].
        rewrite elem_of_cons. intros [Heq | Hin]; [congruence | contradiction].
Qed.

Lemma assign_all_keys (f : string → Result.t) (ks : list string)
    (o : ResultObject.t) (k : string) :
  k ∈ (ResultObject.own (assign_all f ks o)).*1
  ↔ (k ∈ ks ∧ k ≠ "__proto__") ∨ k ∈ (ResultObject.own o).*1.
Proof.
  unfold assign_all. revert o.
  induction ks as [|k0 ks IH]; intros o; cbn.
  - split; [auto | intros [[Hin _] | Hin]; [inversion Hin | exact Hin]].
  - rewrite IH, elem_of_assign_keys, elem_of_cons. split.
    + intros [[Hin Hne] | [[-> Hne] | Hin]]; auto.
    + intros [[[-> | Hin] Hne] | Hin]; auto.
Qed.

Lemma assign_all_NoDup (f : string → Result.t) (ks : list string)
    (o : ResultObject.t) :
  NoDup (ResultObject.own o).*1 →
  NoDup (ResultObject.own (assign_all f ks o)).*1.
Proof.
  unfold assign_all. revert o.
  induction ks as [|k0 ks IH]; intros o Hnd; cbn; [exact Hnd|].
  apply IH, NoDup_assign_keys, Hnd.
Qed.

(** ** Runs of the module *)

Section Runs.
Context {num : Type} `{JSNumber num}.
Variable fetch : string -> Completion Response.t.
Context {Font Path : Type}.
Variable opentype_parse : list Byte.byte -> Completion Font.
Variable getPath :
  Font -> string -> num -> num -> num -> bool -> Completion Path.
Variable toPathData : Path -> N -> string.
Variable getBoundingBox : Path -> BoundingBox.t num.

Local Abbreviation processTextWithFont :=
  (processTextWithFont getPath toPathData getBoundingBox).
Local Abbreviation loadFont := (loadFont fetch opentype_parse).
Local Abbreviation resolveFont := (resolveFont fetch opentype_parse).
Local Abbreviation processSingleText :=
  (processSingleText fetch opentype_parse getPath toPathData getBoundingBox).
Local Abbreviation processFontGroup :=
  (processFontGroup fetch opentype_parse getPath toPathData getBoundingBox).
Local Abbreviation textToSvgPath_multi :=
  (textToSvgPath_multi fetch opentype_parse getPath toPathData
     getBoundingBox).
Local Abbreviation textToSvgPath :=
  (textToSvgPath fetch opentype_parse getPath toPathData getBoundingBox).
Local Abbreviation generated := (generated getPath toPathData getBoundingBox).
Local Abbreviation generated_value :=
  (generated_value getPath toPathData getBoundingBox).
Local Abbreviation before_throw :=
  (before_throw getPath toPathData getBoundingBox).
Local Abbreviation group_store :=
  (group_store fetch opentype_parse getPath toPathData getBoundingBox).
Local Abbreviation label_result :=
  (label_result fetch opentype_parse getPath toPathData getBoundingBox).
Local Abbreviation group_value :=
  (group_value fetch opentype_parse getPath toPathData getBoundingBox).
Local Abbreviation groups_store :=
  (groups_store fetch opentype_parse getPath toPathData getBoundingBox).

Implicit Types (multiOptions : list (string * Options.t num)).
Implicit Types (result : ResultObject.t).
Implicit Types (fontGroups : list (string * list string)).

(** *** Fetching and parsing *)

(** The store plays no part in [loadFont]. *)
Lemma loadFont_run {S} (fontUrl : string) (s : S) :
  loadFont fontUrl s = ((resolveFont fontUrl).1, s, (resolveFont fontUrl).2).
Proof.
  unfold resolveFont, loadFont, bind, emit, lift, throw, ret.
  destruct (fetch fontUrl) as [r|e]; [|reflexivity].
  destruct (Response.ok r); cbn; [|reflexivity].
  destruct (Response.arrayBuffer r) as [d|e]; [|reflexivity].
  destruct (opentype_parse d); reflexivity.
Qed.

(** The shapes of a font resolution. *)
Lemma resolveFont_cases (fontUrl : string) :
  (∃ e, resolveFont fontUrl = ([EvFetch fontUrl], Throw e)
        ∧ (fetch fontUrl = Throw e
           ∨ (∃ r, fetch fontUrl = Normal r ∧ Response.ok r = false)
           ∨ (∃ r, fetch fontUrl = Normal r ∧ Response.ok r = true
                   ∧ Response.arrayBuffer r = Throw e)))
  ∨ (∃ r d, fetch fontUrl = Normal r ∧ Response.ok r = true
            ∧ Response.arrayBuffer r = Normal d
            ∧ resolveFont fontUrl
              = ([EvFetch fontUrl; EvParse fontUrl d], opentype_parse d)).
Proof.
  unfold resolveFont, loadFont, bind, emit, lift, throw, ret.
  destruct (fetch fontUrl) as [r|e]; [|left; eauto].
  destruct (Response.ok r) eqn:Hok; cbn.
  - destruct (Response.arrayBuffer r) as [d|e] eqn:Hbuf.
    + right. exists r, d. repeat split; try assumption;
        destruct (opentype_parse d); reflexivity.
    + left. exists e. split; [reflexivity|]. right; right. eauto.
  - left. eexists. split; [reflexivity|]. right; left. eauto.
Qed.

Lemma fetch_count_resolveFont (fontUrl u : string) :
  fetch_count u (resolveFont fontUrl).1 = if decide (fontUrl = u) then 1%nat else 0%nat.
Proof.
  unfold fetch_count.
  destruct (resolveFont_cases fontUrl) as [(e & -> & _)|(r & d & _ & _ & _ & ->)];
    cbn; unfold filter; cbn;
    destruct (decide (fontUrl = u)) as [->|Hne];
    rewrite ?bool_decide_eq_true_2 by reflexivity;
    rewrite ?bool_decide_eq_false_2 by assumption; reflexivity.
Qed.
Lemma parse_count_resolveFont (fontUrl u : string) :
  parse_count u (resolveFont fontUrl).1
  = if decide (fontUrl = u)
    then match font_bytes fetch fontUrl with Some _ => 1%nat | None => 0%nat end
    else 0%nat.
Proof.
  unfold parse_count, font_bytes.
  destruct (resolveFont_cases fontUrl)
    as [(e & -> & [Hf | [(r & Hf & Hok) | (r & Hf & Hok & Hbuf)]])
       |(r & d & Hf & Hok & Hbuf & ->)];
    rewrite Hf, ?Hok, ?Hbuf; cbn; unfold filter; cbn;
    destruct (decide (fontUrl = u)) as [->|Hne];
    rewrite ?bool_decide_eq_true_2 by reflexivity;
    rewrite ?bool_decide_eq_false_2 by assumption; reflexivity.
Qed.

Lemma fetch_count_app (u : string) (t1 t2 : list Event) :
  fetch_count u (t1 ++ t2) = (fetch_count u t1 + fetch_count u t2)%nat.
Proof. unfold fetch_count. rewrite filter_app, length_app. reflexivity. Qed.

Lemma parse_count_app (u : string) (t1 t2 : list Event) :
  parse_count u (t1 ++ t2) = (parse_count u t1 + parse_count u t2)%nat.
Proof. unfold parse_count. rewrite filter_app, length_app. reflexivity. Qed.

(** The trace of resolving each font of a list once. *)
Lemma fetch_count_resolve_all (us : list string) (u : string) :
  NoDup us →
  fetch_count u (concat (map (fun v => (resolveFont v).1) us))
  = if decide (u ∈ us) then 1%nat else 0%nat.
Proof.
  induction us as [|v us IH]; intros Hnd.
  - destruct (decide (u ∈ [])) as [Hin|]; [inversion Hin | reflexivity].
  - apply NoDup_cons in Hnd as [Hnotin Hnd].
    cbn [concat map].
    rewrite fetch_count_app, fetch_count_resolveFont, (IH Hnd).
    destruct (decide (v = u)) as [->|Hne];
      repeat (destruct (decide _)); try reflexivity;
      exfalso; rewrite ?elem_of_cons in *; intuition congruence.
Qed.

Lemma parse_count_resolve_all (us : list string) (u : string) :
  NoDup us →
  parse_count u (concat (map (fun v => (resolveFont v).1) us))
  = if decide (u ∈ us)
    then match font_bytes fetch u with Some _ => 1%nat | None => 0%nat end
    else 0%nat.
Proof.
  induction us as [|v us IH]; intros Hnd.
  - destruct (decide (u ∈ [])) as [Hin|]; [inversion Hin | reflexivity].
  - apply NoDup_cons in Hnd as [Hnotin Hnd].
    cbn [concat map].
    rewrite parse_count_app, parse_count_resolveFont, (IH Hnd).
    destruct (decide (v = u)) as [->|Hne];
      repeat (destruct (decide _)); try lia;
      exfalso; rewrite ?elem_of_cons in *; intuition congruence.
Qed.

(** *** The loops over a font group *)

Lemma for_of_assign (f : string → Result.t) (ks : list string) result :
  for_of ks
    (fun key => modify (fun result => ResultObject.assign result key (f key)))
    result
  = ([], assign_all f ks result, Normal tt).
Proof.
  revert result. induction ks as [|k ks IH]; intros result; cbn.
  - reflexivity.
  - unfold bind, modify at 1. rewrite IH. reflexivity.
Qed.

Lemma for_of_generate multiOptions (font : Font) (ks : list string) result :
  for_of ks
    (fun key =>
       (opts <- get_defined multiOptions key ;;
        generated <- lift (processTextWithFont opts font) ;;
        modify (fun result => ResultObject.assign result key generated))%js)
    result
  = ([],
     assign_all (generated_value multiOptions font)
       (before_throw multiOptions font ks) result,
     match first_throw (generated multiOptions font <$> ks) with
     | Some e => Throw e
     | None => Normal tt
     end).
Proof.
  revert result. induction ks as [|k ks IH]; intros result; cbn.
  - reflexivity.
  - unfold bind at 1. unfold bind at 1.
    unfold get_defined, generated_value, generated.
    destruct (obj_get multiOptions k) as [opts|] eqn:Hget; cbn.
    + unfold bind, lift, modify at 1.
      destruct (processTextWithFont opts font) as [r|e] eqn:Hgen; cbn.
      * rewrite IH. cbn.
        unfold generated_value, generated at 1.
        rewrite Hget, Hgen. reflexivity.
      * reflexivity.
    + reflexivity.
Qed.

Lemma processFontGroup_run multiOptions fontGroups (fontUrl : string)
    (group : list string) result :
  obj_get fontGroups fontUrl = Some group →
  processFontGroup multiOptions fontGroups fontUrl result
  = ((resolveFont fontUrl).1,
     group_store multiOptions fontUrl group result,
     Normal tt).
Proof.
  intros Hgroup.
  unfold processFontGroup, group_store, try_catch.
  unfold bind at 1. rewrite loadFont_run.
  destruct (resolveFont fontUrl).2 as [font|e]; cbn.
  - unfold bind at 1. unfold get_defined at 1. rewrite Hgroup. cbn.
    rewrite for_of_generate.
    destruct (first_throw (generated multiOptions font <$> group)) as [e|].
    + unfold bind, get_defined. rewrite Hgroup. cbn.
      rewrite for_of_assign. rewrite !app_nil_r. reflexivity.
    + rewrite !app_nil_r. reflexivity.
  - unfold bind, get_defined. rewrite Hgroup. cbn.
    rewrite for_of_assign. rewrite !app_nil_r. reflexivity.
Qed.
Lemma before_throw_elem_of multiOptions (font : Font) (ks : list string)
    (k : string) :
  k ∈ before_throw multiOptions font ks → k ∈ ks.
Proof.
  induction ks as [|k0 ks IH]; cbn; [auto|].
  destruct (generated multiOptions font k0).
  - rewrite !elem_of_cons. intros [Heq | Hin]; auto.
  - intros Hin. inversion Hin.
Qed.

Lemma before_throw_all multiOptions (font : Font) (ks : list string) :
  first_throw (generated multiOptions font <$> ks) = None →
  before_throw multiOptions font ks = ks.
Proof.
  induction ks as [|k0 ks IH]; cbn; [auto|].
  destruct (generated multiOptions font k0); [|discriminate].
  intros Hnone. rewrite (IH Hnone). reflexivity.
Qed.

Lemma group_store_read multiOptions (fontUrl : string) (group : list string)
    result (k : string) :
  ResultObject.read (group_store multiOptions fontUrl group result) k
  = if decide (k ∈ group)
    then Some (group_value multiOptions fontUrl group k)
    else ResultObject.read result k.
Proof.
  unfold group_store, group_value.
  destruct (resolveFont fontUrl).2 as [font|e];
    [|rewrite assign_all_read; reflexivity].
  destruct (first_throw (generated multiOptions font <$> group)) as [e|] eqn:Hft.
  - rewrite assign_all_read.
    destruct (decide (k ∈ group)) as [Hin|Hnotin]; [reflexivity|].
    rewrite assign_all_read. rewrite decide_False; [reflexivity|].
    intros Hin. apply Hnotin. eapply before_throw_elem_of, Hin.
  - rewrite (before_throw_all _ _ _ Hft). apply assign_all_read.
Qed.

Lemma group_store_keys multiOptions (fontUrl : string) (group : list string)
    result (k : string) :
  k ∈ (ResultObject.own (group_store multiOptions fontUrl group result)).*1
  ↔ (k ∈ group ∧ k ≠ "__proto__") ∨ k ∈ (ResultObject.own result).*1.
Proof.
  unfold group_store.
  destruct (resolveFont fontUrl).2 as [font|e]; [|apply assign_all_keys].
  destruct (first_throw (generated multiOptions font <$> group)) as [e|] eqn:Hft.
  - rewrite !assign_all_keys. split; [|tauto].
    intros [Hin | [[Hin Hne] | Hin]]; auto.
    left. split; [|exact Hne]. eapply before_throw_elem_of, Hin.
  - rewrite (before_throw_all _ _ _ Hft). apply assign_all_keys.
Qed.

Lemma group_store_NoDup multiOptions (fontUrl : string) (group : list string)
    result :
  NoDup (ResultObject.own result).*1 →
  NoDup (ResultObject.own (group_store multiOptions fontUrl group result)).*1.
Proof.
  intros Hnd. unfold group_store.
  destruct (resolveFont fontUrl).2 as [font|e].
  - destruct (first_throw _); repeat apply assign_all_NoDup; exact Hnd.
  - apply assign_all_NoDup, Hnd.
Qed.
(** *** Grouping by font URL *)

Lemma group_lookup_snoc multiOptions (done : list string) (key u0 u : string) :
  url_of multiOptions key = Some u0 →
  group_lookup multiOptions (done ++ [key]) u
  = if decide (u0 = u)
    then Some (default [] (group_lookup multiOptions done u0) ++ [key])
    else group_lookup multiOptions done u.
Proof.
  intros Hurl. unfold group_lookup.
  rewrite filter_app, filter_cons, filter_nil.
  destruct (decide (u0 = u)) as [<-|Hne].
  - rewrite decide_True by exact Hurl.
    destruct (filter _ done); reflexivity.
  - rewrite decide_False by congruence.
    rewrite app_nil_r. reflexivity.
Qed.

Lemma obj_assign_not_inherited {V} (o : list (string * V)) (k : string)
    (v : V) :
  k ∉ Object_prototype_names → obj_assign o k v = obj_set o k v.
Proof.
  intros Hnotin. unfold obj_assign.
  destruct (decide (k = "__proto__")) as [->|]; [|reflexivity].
  exfalso. apply Hnotin. vm_compute. repeat constructor.
Qed.

Lemma names_inherited_false multiOptions (key : string)
    (opts : Options.t num) :
  obj_get multiOptions key = Some opts →
  names_inherited multiOptions key = false →
  Options.fontUrl opts ∉ Object_prototype_names.
Proof.
  unfold names_inherited. intros ->. apply bool_decide_eq_false.
Qed.

Lemma names_inherited_true multiOptions (key : string) :
  names_inherited multiOptions key = true →
  ∃ opts, obj_get multiOptions key = Some opts
          ∧ Options.fontUrl opts ∈ Object_prototype_names.
Proof.
  unfold names_inherited.
  destruct (obj_get multiOptions key) as [opts|]; [|discriminate].
  intros Hin. exists opts. split; [reflexivity|].
  apply bool_decide_eq_true in Hin. exact Hin.
Qed.

(** No label grouped so far names an inherited member, so no group is
    filed under one. *)
Lemma group_lookup_inherited multiOptions (done : list string) (u : string) :
  (∀ k, k ∈ done → names_inherited multiOptions k = false) →
  u ∈ Object_prototype_names →
  group_lookup multiOptions done u = None.
Proof.
  intros Hdone Hu. unfold group_lookup.
  destruct (filter _ done) as [|k ks] eqn:Hfilter; [reflexivity|].
  exfalso.
  assert (Hk : k ∈ filter (fun key => url_of multiOptions key = Some u) done)
    by (rewrite Hfilter; apply elem_of_cons; auto).
  apply list_elem_of_filter in Hk as [Hurl Hin].
  specialize (Hdone k Hin). unfold url_of in Hurl.
  destruct (obj_get multiOptions k) as [opts|] eqn:Hget; [|discriminate].
  apply (names_inherited_false _ _ _ Hget Hdone).
  cbn in Hurl. congruence.
Qed.

Lemma groupStep_run {S} multiOptions (done : list string) fontGroups
    (key : string) (opts : Options.t num) (s : S) :
  obj_get multiOptions key = Some opts →
  Options.fontUrl opts ∉ Object_prototype_names →
  (∀ u, obj_get fontGroups u = group_lookup multiOptions done u) →
  NoDup fontGroups.*1 →
  ∃ fontGroups',
    groupStep multiOptions fontGroups key s
    = ([], s, Normal fontGroups')
    ∧ (∀ u, obj_get fontGroups' u
            = group_lookup multiOptions (done ++ [key]) u)
    ∧ NoDup fontGroups'.*1.
Proof.
  intros Hget Hsafe Hinv Hnd.
  assert (Hurl : url_of multiOptions key = Some (Options.fontUrl opts))
    by (unfold url_of; rewrite Hget; reflexivity).
  unfold groupStep. unfold bind at 1. unfold get_defined at 1.
  rewrite Hget. cbn.
  rewrite (obj_lookup_not_inherited fontGroups _ Hsafe).
  destruct (obj_get fontGroups (Options.fontUrl opts)) as [g|] eqn:Hg.
  - rewrite (obj_lookup_not_inherited fontGroups _ Hsafe), Hg. cbn.
    eexists. split; [reflexivity|]. split.
    + intros u. rewrite obj_get_set, (group_lookup_snoc _ _ _ _ _ Hurl).
      rewrite <- Hinv, Hg. destruct (decide _); [reflexivity | apply Hinv].
    + apply NoDup_obj_set_keys, Hnd.
  - rewrite (obj_assign_not_inherited _ _ _ Hsafe).
    rewrite (obj_lookup_not_inherited _ _ Hsafe), obj_get_set_eq. cbn.
    eexists. split; [reflexivity|]. split.
    + intros u. rewrite obj_get_set, (group_lookup_snoc _ _ _ _ _ Hurl).
      rewrite <- Hinv, Hg. destruct (decide _) as [Heq|Hne]; [reflexivity|].
      rewrite obj_get_set_ne by exact Hne. apply Hinv.
    + apply NoDup_obj_set_keys, NoDup_obj_set_keys, Hnd.
Qed.

Lemma groupStep_throws {S} multiOptions fontGroups (key : string)
    (opts : Options.t num) (s : S) :
  obj_get multiOptions key = Some opts →
  Options.fontUrl opts ∈ Object_prototype_names →
  obj_get fontGroups (Options.fontUrl opts) = None →
  groupStep multiOptions fontGroups key s
  = ([], s, Throw push_is_not_a_function).
Proof.
  intros Hget Hin Hnone.
  unfold groupStep. unfold bind at 1. unfold get_defined at 1.
  rewrite Hget. cbn.
  rewrite (obj_lookup_inherited _ _ Hnone Hin).
  rewrite (obj_lookup_inherited _ _ Hnone Hin). reflexivity.
Qed.

Lemma groupByFontUrl_loop {S} multiOptions (rest done : list string)
    fontGroups (s : S) :
  (∀ k, k ∈ rest → k ∈ multiOptions.*1) →
  (∀ k, k ∈ done → names_inherited multiOptions k = false) →
  (∀ u, obj_get fontGroups u = group_lookup multiOptions done u) →
  NoDup fontGroups.*1 →
  (existsb (names_inherited multiOptions) rest = true →
   for_of_acc rest (groupStep multiOptions) fontGroups s
   = ([], s, Throw push_is_not_a_function))
  ∧ (existsb (names_inherited multiOptions) rest = false →
     ∃ fontGroups',
       for_of_acc rest (groupStep multiOptions) fontGroups s
       = ([], s, Normal fontGroups')
       ∧ (∀ u, obj_get fontGroups' u
               = group_lookup multiOptions (done ++ rest) u)
       ∧ NoDup fontGroups'.*1).
Proof.
  revert done fontGroups.
  induction rest as [|key rest IH]; intros done fontGroups Hkeys Hdone Hinv Hnd.
  - split; [discriminate|]. intros _.
    exists fontGroups. rewrite app_nil_r. auto.
  - assert (Hin : key ∈ multiOptions.*1) by (apply Hkeys, elem_of_cons; auto).
    apply obj_get_is_Some in Hin as [opts Hget].
    cbn [existsb for_of_acc].
    destruct (names_inherited multiOptions key) eqn:Hkey.
    + split; [|discriminate]. intros _.
      apply names_inherited_true in Hkey as (opts' & Hget' & Hproto).
      assert (opts' = opts) as -> by congruence.
      unfold bind.
      rewrite (groupStep_throws multiOptions fontGroups key opts s Hget Hproto);
        [reflexivity|].
      rewrite Hinv. apply group_lookup_inherited; assumption.
    + pose proof (names_inherited_false _ _ _ Hget Hkey) as Hsafe.
      destruct (groupStep_run multiOptions done fontGroups key opts s
                  Hget Hsafe Hinv Hnd) as (fg1 & Hrun & Hinv1 & Hnd1).
      destruct (IH (done ++ [key]) fg1) as [IHthrow IHok];
        [intros k Hk; apply Hkeys, elem_of_cons; auto
        |intros k Hk; apply elem_of_app in Hk as [Hk | Hk];
           [auto | apply list_elem_of_singleton in Hk as ->; exact Hkey]
        |exact Hinv1 | exact Hnd1 |].
      cbn [orb]. split.
      * intros Hrest. unfold bind. rewrite Hrun, (IHthrow Hrest). reflexivity.
      * intros Hrest. destruct (IHok Hrest) as (fg2 & Hrun2 & Hinv2 & Hnd2).
        exists fg2. split; [|split; [|exact Hnd2]].
        -- unfold bind. rewrite Hrun, Hrun2. reflexivity.
        -- intros u. rewrite Hinv2, <- app_assoc. reflexivity.
Qed.

Lemma groupByFontUrl_run {S} multiOptions (s : S) :
  fontUrl_is_inherited multiOptions = false →
  ∃ fontGroups,
    groupByFontUrl multiOptions (Object_keys multiOptions) s
    = ([], s, Normal fontGroups)
    ∧ (∀ u, obj_get fontGroups u
            = group_lookup multiOptions (Object_keys multiOptions) u)
    ∧ NoDup fontGroups.*1.
Proof.
  intros Hsafe. unfold groupByFontUrl.
  apply (groupByFontUrl_loop multiOptions (Object_keys multiOptions) [] [] s);
    [| | | |exact Hsafe].
  - intros k. apply elem_of_Object_keys.
  - intros k Hk. inversion Hk.
  - reflexivity.
  - apply NoDup_nil_2.
Qed.

Lemma groupByFontUrl_throws {S} multiOptions (s : S) :
  fontUrl_is_inherited multiOptions = true →
  groupByFontUrl multiOptions (Object_keys multiOptions) s
  = ([], s, Throw push_is_not_a_function).
Proof.
  intros Hunsafe. unfold groupByFontUrl.
  apply (groupByFontUrl_loop multiOptions (Object_keys multiOptions) [] [] s);
    [| | | |exact Hunsafe].
  - intros k. apply elem_of_Object_keys.
  - intros k Hk. inversion Hk.
  - reflexivity.
  - apply NoDup_nil_2.
Qed.

Lemma fontUrl_is_inherited_false multiOptions :
  fontUrl_is_inherited multiOptions = false
  ↔ ∀ k opts, obj_get multiOptions k = Some opts →
              Options.fontUrl opts ∉ Object_prototype_names.
Proof.
  unfold fontUrl_is_inherited. split.
  - intros Hnone k opts Hget.
    apply (names_inherited_false _ _ _ Hget).
    destruct (names_inherited multiOptions k) eqn:Hk; [|reflexivity].
    exfalso. assert (Hex : existsb (names_inherited multiOptions)
                             (Object_keys multiOptions) = true).
    { apply existsb_exists. exists k. split; [|exact Hk].
      apply list_elem_of_In, elem_of_Object_keys.
      eapply obj_get_Some_elem_of, Hget. }
    congruence.
  - intros Hall.
    destruct (existsb _ _) eqn:Hex; [|reflexivity].
    apply existsb_exists in Hex as (k & _ & Hk).
    apply names_inherited_true in Hk as (opts & Hget & Hin).
    exfalso. apply (Hall k opts Hget Hin).
Qed.
(** *** The multi-text case as a whole *)

Lemma elem_of_group_of multiOptions (u k : string) :
  k ∈ group_of multiOptions u
  ↔ ∃ opts, obj_get multiOptions k = Some opts ∧ Options.fontUrl opts = u.
Proof.
  unfold group_of, url_of. rewrite list_elem_of_filter, elem_of_Object_keys.
  split.
  - intros [Hurl _]. destruct (obj_get multiOptions k) as [opts|];
      [|discriminate].
    exists opts. split; [reflexivity|]. cbn in Hurl. congruence.
  - intros (opts & Hget & <-). rewrite Hget. split; [reflexivity|].
    eapply obj_get_Some_elem_of, Hget.
Qed.

Lemma group_lookup_keys multiOptions (u : string) :
  group_lookup multiOptions (Object_keys multiOptions) u
  = match group_of multiOptions u with
    | [] => None
    | group => Some group
    end.
Proof. reflexivity. Qed.

Lemma group_lookup_Some multiOptions (u : string) (group : list string) :
  group_lookup multiOptions (Object_keys multiOptions) u = Some group →
  group = group_of multiOptions u.
Proof.
  rewrite group_lookup_keys.
  destruct (group_of multiOptions u); [discriminate | congruence].
Qed.

Lemma group_lookup_is_Some multiOptions (u : string) :
  is_Some (group_lookup multiOptions (Object_keys multiOptions) u)
  ↔ ∃ k opts, obj_get multiOptions k = Some opts ∧ Options.fontUrl opts = u.
Proof.
  rewrite group_lookup_keys. split.
  - destruct (group_of multiOptions u) as [|k group] eqn:Hgroup.
    + intros [? ?]; discriminate.
    + intros _. exists k. apply elem_of_group_of.
      rewrite Hgroup. apply elem_of_cons. auto.
  - intros (k & opts & Hget & Hurl).
    assert (Hin : k ∈ group_of multiOptions u)
      by (apply elem_of_group_of; eauto).
    destruct (group_of multiOptions u); [inversion Hin | eauto].
Qed.

Lemma for_of_groups multiOptions fontGroups (us : list string) result :
  (∀ u, u ∈ us → obj_get fontGroups u = Some (group_of multiOptions u)) →
  for_of us (processFontGroup multiOptions fontGroups) result
  = (concat (map (fun v => (resolveFont v).1) us),
     groups_store multiOptions us result,
     Normal tt).
Proof.
  revert result. induction us as [|u us IH]; intros result Hgroups.
  - reflexivity.
  - cbn [for_of concat map]. unfold bind.
    rewrite (processFontGroup_run _ _ _ (group_of multiOptions u))
      by (apply Hgroups, elem_of_cons; auto).
    rewrite IH by (intros v Hv; apply Hgroups, elem_of_cons; auto).
    reflexivity.
Qed.

Lemma groups_store_read multiOptions (us : list string) result (k : string)
    (opts : Options.t num) :
  obj_get multiOptions k = Some opts →
  ResultObject.read (groups_store multiOptions us result) k
  = if decide (Options.fontUrl opts ∈ us)
    then Some (label_result multiOptions (Options.fontUrl opts) k)
    else ResultObject.read result k.
Proof.
  intros Hget. revert result.
  induction us as [|u us IH]; intros result.
  - rewrite decide_False by (intros Hin; inversion Hin). reflexivity.
  - unfold groups_store in *. cbn [foldl]. rewrite IH.
    rewrite group_store_read.
    destruct (decide (Options.fontUrl opts ∈ us)) as [Hin|Hnotin].
    + rewrite decide_True by (apply elem_of_cons; auto). reflexivity.
    + destruct (decide (k ∈ group_of multiOptions u)) as [Hk|Hk].
      * apply elem_of_group_of in Hk as (opts' & Hget' & Hurl).
        assert (opts' = opts) as -> by congruence. subst u.
        rewrite decide_True by (apply elem_of_cons; auto). reflexivity.
      * rewrite decide_False; [reflexivity|].
        rewrite elem_of_cons. intros [Heq | Hin]; [|contradiction].
        apply Hk. apply elem_of_group_of. eauto.
Qed.

Lemma groups_store_keys multiOptions (us : list string) result (k : string) :
  k ∈ (ResultObject.own (groups_store multiOptions us result)).*1
  ↔ ((∃ u, u ∈ us ∧ k ∈ group_of multiOptions u) ∧ k ≠ "__proto__")
    ∨ k ∈ (ResultObject.own result).*1.
Proof.
  revert result. induction us as [|u us IH]; intros result.
  - cbn. split; [auto|].
    intros [[(u & Hin & _) _] | Hin]; [inversion Hin | exact Hin].
  - unfold groups_store in *. cbn [foldl].
    rewrite IH, group_store_keys. split.
    + intros [[(v & Hv & Hk) Hne] | [[Hk Hne] | Hk]];
        [left | left | right; exact Hk]; (split; [|exact Hne]).
      * exists v. split; [apply elem_of_cons; auto | exact Hk].
      * exists u. split; [apply elem_of_cons; auto | exact Hk].
    + intros [[(v & Hv & Hk) Hne] | Hk]; [|auto].
      apply elem_of_cons in Hv as [-> | Hv]; [auto | left; eauto].
Qed.

Lemma groups_store_NoDup multiOptions (us : list string) result :
  NoDup (ResultObject.own result).*1 →
  NoDup (ResultObject.own (groups_store multiOptions us result)).*1.
Proof.
  revert result. induction us as [|u us IH]; intros result Hnd; [exact Hnd|].
  unfold groups_store in *. cbn [foldl].
  apply IH, group_store_NoDup, Hnd.
Qed.

(** The run of the multi-text case when no request names a member of
    [Object.prototype] as its font URL: the fonts of the requests are
    resolved once each, in some order; reading [result] at a label gives
    the result of the label's font group, and every label but [__proto__]
    is an own property of [result]. *)
Lemma textToSvgPath_multi_run multiOptions :
  fontUrl_is_inherited multiOptions = false →
  ∃ (urls : list string) result,
    textToSvgPath_multi multiOptions ResultObject.empty
    = (concat (map (fun v => (resolveFont v).1) urls), result, Normal result)
    ∧ NoDup urls
    ∧ (∀ u, u ∈ urls
            ↔ ∃ k opts, obj_get multiOptions k = Some opts
                        ∧ Options.fontUrl opts = u)
    ∧ (∀ k opts, obj_get multiOptions k = Some opts →
         ResultObject.read result k
         = Some (label_result multiOptions (Options.fontUrl opts) k))
    ∧ (∀ k, k ∈ (ResultObject.own result).*1
            ↔ k ∈ multiOptions.*1 ∧ k ≠ "__proto__")
    ∧ NoDup (ResultObject.own result).*1.
Proof.
  intros Hsafe.
  destruct (groupByFontUrl_run multiOptions ResultObject.empty Hsafe)
    as (fontGroups & Hrun & Hinv & Hnd).
  assert (Hurls : ∀ u, u ∈ Object_keys fontGroups
                       ↔ ∃ k opts, obj_get multiOptions k = Some opts
                                   ∧ Options.fontUrl opts = u).
  { intros u. rewrite elem_of_Object_keys, obj_get_is_Some, Hinv.
    apply group_lookup_is_Some. }
  assert (Hgroups : ∀ u, u ∈ Object_keys fontGroups →
                         obj_get fontGroups u = Some (group_of multiOptions u)).
  { intros u Hu. apply elem_of_Object_keys, obj_get_is_Some in Hu as [g Hg].
    rewrite Hg. f_equal. apply group_lookup_Some. rewrite <- Hinv. exact Hg. }
  exists (Object_keys fontGroups),
         (groups_store multiOptions (Object_keys fontGroups)
            ResultObject.empty).
  split; [|split; [|split; [|split; [|split]]]].
  - unfold textToSvgPath_multi. unfold bind at 1. rewrite Hrun.
    unfold bind, get. rewrite (for_of_groups _ _ _ _ Hgroups).
    cbn. rewrite app_nil_r. reflexivity.
  - apply NoDup_Object_keys, Hnd.
  - exact Hurls.
  - intros k opts Hget.
    rewrite (groups_store_read _ _ _ _ _ Hget).
    rewrite decide_True; [reflexivity|]. apply Hurls. eauto.
  - intros k. rewrite groups_store_keys. split.
    + intros [[(u & _ & Hk) Hne] | Hk]; [|inversion Hk].
      apply elem_of_group_of in Hk as (opts & Hget & _).
      split; [|exact Hne]. eapply obj_get_Some_elem_of, Hget.
    + intros [Hk Hne]. apply obj_get_is_Some in Hk as [opts Hget]. left.
      split; [|exact Hne].
      exists (Options.fontUrl opts). split; [apply Hurls; eauto|].
      apply elem_of_group_of. eauto.
  - apply groups_store_NoDup, NoDup_nil_2.
Qed.

(** The run when some request does: the grouping loop throws, outside any
    [try], before any external call. *)
Lemma textToSvgPath_multi_throws multiOptions :
  fontUrl_is_inherited multiOptions = true →
  textToSvgPath_multi multiOptions ResultObject.empty
  = ([], ResultObject.empty, Throw push_is_not_a_function).
Proof.
  intros Hunsafe. unfold textToSvgPath_multi. unfold bind at 1.
  rewrite (groupByFontUrl_throws _ _ Hunsafe). reflexivity.
Qed.

(** *** The two shapes of the argument *)

Lemma asMultiOptions_keys (options : list (string * JSValue num)) multiOptions :
  asMultiOptions options = Some multiOptions → multiOptions.*1 = options.*1.
Proof.
  revert multiOptions.
  induction options as [|[k v] options IH]; intros multiOptions; cbn.
  - intros [= <-]. reflexivity.
  - destruct v; try discriminate.
    destruct (asMultiOptions options) as [m|]; [|discriminate].
    cbn. intros [= <-]. cbn. rewrite (IH m eq_refl). reflexivity.
Qed.

Lemma textToSvgPath_single_mode (options : JSObject.t num)
    (single : Options.t num) :
  has_property options "text" && has_property options "fontUrl" = true →
  asOptions options = Some single →
  textToSvgPath options = Some (settle Single (processSingleText single tt)).
Proof.
  intros Hmode Hsingle. unfold textToSvgPath.
  rewrite Hmode, Hsingle. reflexivity.
Qed.

Lemma textToSvgPath_multi_mode (options : JSObject.t num) multiOptions :
  has_property options "text" && has_property options "fontUrl" = false →
  asMultiOptions (JSObject.own options) = Some multiOptions →
  textToSvgPath options
  = Some (settle Multi (textToSvgPath_multi multiOptions ResultObject.empty)).
Proof.
  intros Hmode Hmulti. unfold textToSvgPath.
  rewrite Hmode, Hmulti. reflexivity.
Qed.

(** The single-text case: the trace is that of resolving the font; a font
    error is wrapped, a generation error is not. *)
Lemma processSingleText_run (single : Options.t num) :
  processSingleText single tt
  = ((resolveFont (Options.fontUrl single)).1, tt,
     match (resolveFont (Options.fontUrl single)).2 with
     | Normal font => processTextWithFont single font
     | Throw e =>
         Throw (template [ "Error generating SVG path: ";
                           string_or e "Unknown error" ])
     end).
Proof.
  unfold processSingleText, try_catch. unfold bind at 1. unfold bind at 1.
  rewrite loadFont_run.
  destruct (resolveFont (Options.fontUrl single)).2 as [font|e]; cbn.
  - unfold lift. rewrite !app_nil_r. reflexivity.
  - rewrite !app_nil_r. reflexivity.
Qed.

Lemma generated_get multiOptions (font : Font) (k : string)
    (opts : Options.t num) :
  obj_get multiOptions k = Some opts →
  generated multiOptions font k = processTextWithFont opts font.
Proof. intros Hget. unfold generated. rewrite Hget. reflexivity. Qed.

Lemma first_throw_None multiOptions (font : Font) (ks : list string) :
  (∀ k, k ∈ ks → ∃ r, generated multiOptions font k = Normal r) →
  first_throw (generated multiOptions font <$> ks) = None.
Proof.
  induction ks as [|k ks IH]; intros Hall; cbn; [reflexivity|].
  destruct (Hall k) as [r ->]; [apply elem_of_cons; auto|].
  apply IH. intros k' Hk'. apply Hall, elem_of_cons. auto.
Qed.

Lemma first_throw_Some multiOptions (font : Font) (ks : list string)
    (k0 e0 : string) :
  k0 ∈ ks → generated multiOptions font k0 = Throw e0 →
  ∃ e k1, k1 ∈ ks ∧ generated multiOptions font k1 = Throw e
          ∧ first_throw (generated multiOptions font <$> ks) = Some e.
Proof.
  induction ks as [|k ks IH]; intros Hin Hthrow; [inversion Hin|].
  cbn. destruct (generated multiOptions font k) as [r|e] eqn:Hgen.
  - apply elem_of_cons in Hin as [-> | Hin]; [congruence|].
    destruct (IH Hin Hthrow) as (e & k1 & Hk1 & Hgen1 & Hfirst).
    exists e, k1. split; [apply elem_of_cons; auto | auto].
  - exists e, k. split; [apply elem_of_cons; auto | auto].
Qed.

(** The multi-text case seen through [textToSvgPath]. *)
Lemma textToSvgPath_multi_spec (options : JSObject.t num) multiOptions :
  has_property options "text" && has_property options "fontUrl" = false →
  asMultiOptions (JSObject.own options) = Some multiOptions →
  fontUrl_is_inherited multiOptions = false →
  ∃ (urls : list string) result,
    textToSvgPath options
    = Some (concat (map (fun v => (resolveFont v).1) urls),
            Normal (Multi result))
    ∧ NoDup urls
    ∧ (∀ u, u ∈ urls
            ↔ ∃ k opts, obj_get multiOptions k = Some opts
                        ∧ Options.fontUrl opts = u)
    ∧ (∀ k opts, obj_get multiOptions k = Some opts →
         ResultObject.read result k
         = Some (label_result multiOptions (Options.fontUrl opts) k))
    ∧ (∀ k, k ∈ (ResultObject.own result).*1
            ↔ k ∈ (JSObject.own options).*1 ∧ k ≠ "__proto__")
    ∧ NoDup (ResultObject.own result).*1.
Proof.
  intros Hmode Hmulti Hsafe.
  destruct (textToSvgPath_multi_run multiOptions Hsafe)
    as (urls & result & Hrun & Hnd & Hurls & Hget & Hkeys & Hndr).
  exists urls, result.
  rewrite (textToSvgPath_multi_mode _ _ Hmode Hmulti), Hrun.
  rewrite <- (asMultiOptions_keys _ _ Hmulti). auto 10.
Qed.

Lemma textToSvgPath_multi_rejects (options : JSObject.t num) multiOptions :
  has_property options "text" && has_property options "fontUrl" = false →
  asMultiOptions (JSObject.own options) = Some multiOptions →
  fontUrl_is_inherited multiOptions = true →
  textToSvgPath options = Some ([], Throw push_is_not_a_function).
Proof.
  intros Hmode Hmulti Hunsafe.
  rewrite (textToSvgPath_multi_mode _ _ Hmode Hmulti).
  rewrite (textToSvgPath_multi_throws _ Hunsafe). reflexivity.
Qed.

(** The result of a generation that completes. *)
Lemma processTextWithFont_Normal (options : Options.t num) (font : Font)
    (r : Result.t) :
  processTextWithFont options font = Normal r →
  let fontSize := default (num_of_Z 72) (Options.fontSize options) in
  let fill := default "#000000" (Options.fill options) in
  let stroke := default "none" (Options.stroke options) in
  let strokeWidth := default "0" (Options.strokeWidth options) in
  let outputFormats := Options.outputFormats options in
  ∃ path,
    getPath font (Options.text options)
      (default (num_of_Z 0) (Options.x options))
      (default fontSize (Options.y options)) fontSize
      (default true (Options.kerning options)) = Normal path
    ∧ Result.pathData r = toPathData path 2
    ∧ Result.pathElement r
      = (if shouldGenerate outputFormats FpathElement
         then pathElementMarkup (toPathData path 2) fill stroke strokeWidth
         else EmptyString)
    ∧ Result.svg r
      = (if shouldGenerate outputFormats Fsvg then
           let bbox := getBoundingBox path in
           let padding := num_mul fontSize num_0_2 in
           let width :=
             num_or (Options.width options)
               (Math_ceil
                  (num_add
                     (num_sub (BoundingBox.x2 bbox) (BoundingBox.x1 bbox))
                     (num_mul padding (num_of_Z 2)))) in
           let height :=
             num_or (Options.height options)
               (Math_ceil
                  (num_add
                     (num_sub (BoundingBox.y2 bbox) (BoundingBox.y1 bbox))
                     (num_mul padding (num_of_Z 2)))) in
           svgMarkup width height
             (num_sub (BoundingBox.x1 bbox) padding)
             (num_sub (BoundingBox.y1 bbox) padding)
             (pathElementMarkup (toPathData path 2) fill stroke strokeWidth)
         else EmptyString)
    ∧ (is_Some (Result.svgWithBackground r)
       ↔ shouldGenerate outputFormats FsvgWithBackground = true
         ∧ truthy_opt_string (Options.background options) = true).
Proof.
  unfold processTextWithFont. cbv zeta.
  destruct (getPath _ _ _ _ _ _) as [path|e]; [|discriminate].
  intros [= <-]. exists path. cbn.
  split; [reflexivity|]. split; [reflexivity|]. split; [reflexivity|]. split.
  - destruct (shouldGenerate _ Fsvg); [|reflexivity].
    destruct (shouldGenerate _ FpathElement); reflexivity.
  - destruct (shouldGenerate _ FsvgWithBackground),
      (truthy_opt_string _); cbn; split;
      try (intros [? ?]; discriminate); try (intros [? ?]; discriminate);
      eauto.
Qed.

Lemma shouldGenerate_absent_or_empty (formats : option (list OutputFormat))
    (f : OutputFormat) :
  formats = None ∨ formats = Some [] → shouldGenerate formats f = true.
Proof. intros [-> | ->]; reflexivity. Qed.

Lemma shouldGenerate_named (fs : list OutputFormat) (f : OutputFormat) :
  fs ≠ [] → (shouldGenerate (Some fs) f = true ↔ f ∈ fs).
Proof.
  intros Hne. destruct fs as [|f0 fs]; [contradiction|].
  unfold shouldGenerate. apply bool_decide_eq_true.
Qed.

Lemma truthy_opt_string_true (o : option string) :
  truthy_opt_string o = true ↔ ∃ b, o = Some b ∧ b ≠ EmptyString.
Proof.
  destruct o as [[|c b]|]; cbn; split;
    try discriminate; try (intros (b' & [= <-] & Hne); congruence);
    try (intros (b' & [=] & _)); eauto.
Qed.
Lemma total_fetches_resolveFont (u : string) :
  total_fetches (resolveFont u).1 = 1%nat.
Proof.
  destruct (resolveFont_cases u)
    as [(e & -> & _)|(r & d & _ & _ & _ & ->)]; reflexivity.
Qed.

Lemma fetch_in_resolveFont (v u : string) :
  EvFetch u ∈ (resolveFont v).1 → u = v.
Proof.
  destruct (resolveFont_cases v)
    as [(e & -> & _)|(r & d & _ & _ & _ & ->)]; cbn;
    rewrite ?elem_of_cons, ?elem_of_nil; intros H0;
    repeat destruct H0 as [H0 | H0]; congruence || contradiction.
Qed.

(** The single-text case on a labelled collection. *)
Lemma processSingleText_collection_run :
  processSingleText_collection fetch opentype_parse
  = match (resolveFont object_toString).2 with
    | Normal _ => None
    | Throw e =>
        Some ((resolveFont object_toString).1,
              Throw (template [ "Error generating SVG path: ";
                                string_or e "Unknown error" ]))
    end.
Proof.
  unfold processSingleText_collection, try_catch. unfold bind at 1.
  rewrite loadFont_run.
  destruct (resolveFont object_toString).2 as [font|e]; cbn;
    rewrite ?app_nil_r; reflexivity.
Qed.

Lemma has_property_own_or_inherited (options : JSObject.t num) (k : string) :
  k ∉ Object_prototype_names →
  (has_property options k = true
   ↔ k ∈ (JSObject.own options).*1 ∨ k ∈ (JSObject.inherited options).*1).
Proof.
  intros Hk. unfold has_property.
  rewrite !orb_true_iff, !bool_decide_eq_true. tauto.
Qed.

(** ** What a call does *)

(** C10.  The empty object has neither a [text] nor a [fontUrl] property,
    so it is a labelled collection with no label: [textToSvgPath] resolves
    with the empty mapping, and neither fetches nor parses any font (the
    trace of external calls is empty). *)
Theorem empty_object_gives_empty_mapping :
  has_property (JSObject.plain [] : JSObject.t num) "text"
  && has_property (JSObject.plain [] : JSObject.t num) "fontUrl" = false
  ∧ textToSvgPath (JSObject.plain [])
    = Some ([], Normal (Multi ResultObject.empty))
  ∧ ResultObject.keys ResultObject.empty = [].
Proof. split; [|split]; reflexivity. Qed.

(** C7, as the code has it.  The argument is processed as a single request
    exactly when the [in] operator finds both a [text] and a [fontUrl]
    property on it, each its own or inherited through its prototype chain,
    and as a labelled collection of requests otherwise.  Seen from
    outside: a call in single-request mode makes exactly one fetch and
    never resolves with a mapping; a call in batch mode never resolves with
    a single result, and fetches nothing but font URLs of the requests
    under its own labels. *)
Theorem mode_by_text_and_fontUrl (options : JSObject.t num) :
  (has_property options "text" && has_property options "fontUrl" = true
   ↔ ("text" ∈ (JSObject.own options).*1
      ∨ "text" ∈ (JSObject.inherited options).*1)
     ∧ ("fontUrl" ∈ (JSObject.own options).*1
        ∨ "fontUrl" ∈ (JSObject.inherited options).*1))
  ∧ (has_property options "text" && has_property options "fontUrl" = true →
     textToSvgPath options
     = match asOptions options with
       | Some single => Some (settle Single (processSingleText single tt))
       | None =>
           _ ← asRequests options;
           processSingleText_collection fetch opentype_parse
       end
     ∧ ∀ tr c, textToSvgPath options = Some (tr, c) →
         is_multi c = false ∧ total_fetches tr = 1%nat)
  ∧ (has_property options "text" && has_property options "fontUrl" = false →
     textToSvgPath options
     = (multiOptions ← asMultiOptions (JSObject.own options);
        Some (settle Multi
                (textToSvgPath_multi multiOptions ResultObject.empty)))
     ∧ ∀ tr c, textToSvgPath options = Some (tr, c) →
         is_single c = false
         ∧ ∀ u, EvFetch u ∈ tr →
             ∃ k opts, obj_get (JSObject.own options) k = Some (VOptions opts)
                       ∧ Options.fontUrl opts = u).
Proof.
  split; [|split].
  - rewrite andb_true_iff.
    rewrite !has_property_own_or_inherited; [reflexivity| |];
      apply (bool_decide_eq_false_1 _); reflexivity.
  - intros Hmode. unfold textToSvgPath. rewrite Hmode.
    split; [reflexivity|]. intros tr c.
    destruct (asOptions options) as [single|].
    + rewrite processSingleText_run.
      pose proof (total_fetches_resolveFont (Options.fontUrl single)) as Hone.
      destruct (resolveFont (Options.fontUrl single)) as [tr0 [font|e]];
        cbn [fst snd settle] in *;
        [destruct (processTextWithFont single font)|];
        intros [= <- <-]; (split; [reflexivity|exact Hone]).
    + destruct (asRequests options); [|discriminate]. cbn.
      rewrite processSingleText_collection_run.
      pose proof (total_fetches_resolveFont object_toString) as Hone.
      destruct (resolveFont object_toString) as [tr0 [font|e]];
        cbn [fst snd] in *; [discriminate|].
      intros [= <- <-]. split; [reflexivity|exact Hone].
  - intros Hmode. unfold textToSvgPath. rewrite Hmode.
    split; [reflexivity|]. intros tr c.
    destruct (asMultiOptions (JSObject.own options)) as [multiOptions|]
      eqn:Hmulti; [|discriminate].
    cbn. intros [= Hrun].
    assert (Hown : ∀ k opts, obj_get multiOptions k = Some opts →
              obj_get (JSObject.own options) k = Some (VOptions opts)).
    { clear Hrun Hmode. revert multiOptions Hmulti.
      induction (JSObject.own options) as [|[k0 v0] o IH];
        intros multiOptions Hmulti k opts; cbn in Hmulti.
      - injection Hmulti as <-. discriminate.
      - destruct v0; try discriminate.
        destruct (asMultiOptions o) as [m|]; [|discriminate].
        injection Hmulti as <-. cbn.
        destruct (decide (k0 = k)); [congruence | apply (IH m eq_refl)]. }
    destruct (fontUrl_is_inherited multiOptions) eqn:Hsafe.
    + rewrite (textToSvgPath_multi_throws _ Hsafe) in Hrun.
      injection Hrun as <- <-. split; [reflexivity|].
      intros u Hin. inversion Hin.
    + destruct (textToSvgPath_multi_run multiOptions Hsafe)
        as (urls & result & Hrun' & _ & Hurls & _).
      rewrite Hrun' in Hrun. injection Hrun as <- <-.
      split; [reflexivity|]. intros u Hin.
      apply list_elem_of_In, in_concat in Hin as (t & Ht & Hin).
      apply in_map_iff in Ht as (v & <- & Hv).
      apply list_elem_of_In, fetch_in_resolveFont in Hin as ->.
      apply list_elem_of_In, Hurls in Hv as (k & opts & Hget & Hurl).
      exists k, opts. auto.
Qed.

(** C1, as the code has it.  In batch mode, when no request names a member
    of [Object.prototype] as its font URL, every font URL that some request
    names is fetched exactly once in the call, however many requests name
    it, and a URL no request names is not fetched.  It is parsed at most
    once: exactly once when the fetch gave a response with a success status
    whose body could be read, and not at all otherwise. *)
Theorem batch_resolves_each_font_once (options : JSObject.t num)
    multiOptions :
  has_property options "text" && has_property options "fontUrl" = false →
  asMultiOptions (JSObject.own options) = Some multiOptions →
  fontUrl_is_inherited multiOptions = false →
  ∃ tr result,
    textToSvgPath options = Some (tr, Normal (Multi result))
    ∧ (∀ k opts, obj_get multiOptions k = Some opts →
         fetch_count (Options.fontUrl opts) tr = 1%nat
         ∧ parse_count (Options.fontUrl opts) tr
           = match font_bytes fetch (Options.fontUrl opts) with
             | Some _ => 1%nat
             | None => 0%nat
             end)
    ∧ (∀ u, (∀ k opts, obj_get multiOptions k = Some opts →
                       Options.fontUrl opts ≠ u) →
            fetch_count u tr = 0%nat ∧ parse_count u tr = 0%nat).
Proof.
  intros Hmode Hmulti Hsafe.
  destruct (textToSvgPath_multi_spec options multiOptions Hmode Hmulti Hsafe)
    as (urls & result & Hrun & Hnd & Hurls & _).
  exists (concat (map (fun v => (resolveFont v).1) urls)), result.
  split; [exact Hrun|]. split.
  - intros k opts Hget.
    rewrite fetch_count_resolve_all, parse_count_resolve_all by exact Hnd.
    rewrite !decide_True by (apply Hurls; eauto). auto.
  - intros u Hnone.
    rewrite fetch_count_resolve_all, parse_count_resolve_all by exact Hnd.
    rewrite !decide_False; [auto| |];
      intros Hin; apply Hurls in Hin as (k & opts & Hget & Hurl);
      apply (Hnone k opts Hget Hurl).
Qed.

(** C3, as the code has it.  In single-request mode a font that cannot be
    had rejects the call; no result is returned.  When the fetch gives a
    response without a success status the error carries
    ["Error generating SVG path: "] followed by the message of the fetch
    error, ["Failed to fetch font: {statusText} ({status})"]; when the bytes
    do not parse it carries ["Error generating SVG path: "] followed by the
    message of the parser's error, or by ["Unknown error"] when that
    message is empty. *)
Theorem single_font_failure_rejects (options : JSObject.t num)
    (single : Options.t num) :
  has_property options "text" && has_property options "fontUrl" = true →
  asOptions options = Some single →
  (∀ response,
     fetch (Options.fontUrl single) = Normal response →
     Response.ok response = false →
     textToSvgPath options
     = Some ([EvFetch (Options.fontUrl single)],
             Throw (template
                      [ "Error generating SVG path: ";
                        template [ "Failed to fetch font: ";
                                   Response.statusText response; " (";
                                   pretty (Response.status response);
                                   ")" ] ])))
  ∧ (∀ response fontData e,
       fetch (Options.fontUrl single) = Normal response →
       Response.ok response = true →
       Response.arrayBuffer response = Normal fontData →
       opentype_parse fontData = Throw e →
       textToSvgPath options
       = Some ([EvFetch (Options.fontUrl single);
                EvParse (Options.fontUrl single) fontData],
               Throw (template
                        [ "Error generating SVG path: ";
                          if decide (e = EmptyString)
                          then "Unknown error" else e ]))).
Proof.
  intros Hmode Hsingle.
  rewrite (textToSvgPath_single_mode _ _ Hmode Hsingle).
  rewrite processSingleText_run.
  unfold resolveFont, loadFont, bind, emit, lift, throw, ret.
  split.
  - intros response -> Hok. cbn. rewrite Hok. reflexivity.
  - intros response fontData e -> Hok Hbuf Hparse. cbn.
    rewrite Hok. cbn. rewrite Hbuf, Hparse. cbn.
    destruct e; reflexivity.
Qed.

(** C4, as the code has it.  When [outputFormats] is absent or empty every
    format is selected; when it is a non-empty list exactly the named
    formats are.  [pathData] is always computed.  [pathElement] and [svg]
    are produced when selected and left as the empty string otherwise.
    [svgWithBackground] is produced when it is selected and [background] is
    a non-empty string, and is absent otherwise.  In particular, with
    [outputFormats = ['pathData']], [pathElement] and [svg] are empty and
    [svgWithBackground] is absent, also when [background] is set. *)
Theorem output_format_selection (options : Options.t num) (font : Font)
    (r : Result.t) :
  processTextWithFont options font = Normal r →
  let formats := Options.outputFormats options in
  (formats = None ∨ formats = Some [] →
     ∀ f, shouldGenerate formats f = true)
  ∧ (∀ fs, formats = Some fs → fs ≠ [] →
       ∀ f, shouldGenerate formats f = true ↔ f ∈ fs)
  ∧ (∃ path,
       getPath font (Options.text options)
         (default (num_of_Z 0) (Options.x options))
         (default (default (num_of_Z 72) (Options.fontSize options))
            (Options.y options))
         (default (num_of_Z 72) (Options.fontSize options))
         (default true (Options.kerning options)) = Normal path
       ∧ Result.pathData r = toPathData path 2)
  ∧ (if shouldGenerate formats FpathElement
     then Result.pathElement r
          = pathElementMarkup (Result.pathData r)
              (default "#000000" (Options.fill options))
              (default "none" (Options.stroke options))
              (default "0" (Options.strokeWidth options))
          ∧ Result.pathElement r ≠ EmptyString
     else Result.pathElement r = EmptyString)
  ∧ (if shouldGenerate formats Fsvg
     then Result.svg r ≠ EmptyString
     else Result.svg r = EmptyString)
  ∧ (is_Some (Result.svgWithBackground r)
     ↔ shouldGenerate formats FsvgWithBackground = true
       ∧ ∃ b, Options.background options = Some b ∧ b ≠ EmptyString)
  ∧ (formats = Some [FpathData] →
     Result.pathElement r = EmptyString
     ∧ Result.svg r = EmptyString
     ∧ Result.svgWithBackground r = None).
Proof.
  intros Hgen formats.
  destruct (processTextWithFont_Normal options font r Hgen)
    as (path & Hpath & Hdata & Helem & Hsvg & Hback).
  fold formats in Helem, Hsvg, Hback.
  split; [intros Hall f; apply shouldGenerate_absent_or_empty, Hall|].
  split; [intros fs -> Hne f; apply shouldGenerate_named, Hne|].
  split; [eauto|]. split; [|split; [|split]].
  - rewrite Helem, Hdata.
    destruct (shouldGenerate formats FpathElement);
      [split; [reflexivity | discriminate] | reflexivity].
  - rewrite Hsvg.
    destruct (shouldGenerate formats Fsvg); [discriminate | reflexivity].
  - rewrite Hback, truthy_opt_string_true. reflexivity.
  - intros Hformats. rewrite Hformats in Helem, Hsvg, Hback.
    cbn in Helem, Hsvg, Hback. split; [exact Helem|]. split; [exact Hsvg|].
    destruct (Result.svgWithBackground r) as [b|]; [|reflexivity].
    destruct Hback as [Hback _].
    destruct Hback as [Hfalse _]; [eauto | discriminate].
Qed.

(** C5.  A generated result has the [svgWithBackground] field exactly when
    [background] is a non-empty string and [outputFormats] is absent, empty
    or includes ['svgWithBackground']; with [background] absent the field
    is omitted whatever [outputFormats] says. *)
Theorem svgWithBackground_present_iff (options : Options.t num) (font : Font)
    (r : Result.t) :
  processTextWithFont options font = Normal r →
  (is_Some (Result.svgWithBackground r)
   ↔ (∃ b, Options.background options = Some b ∧ b ≠ EmptyString)
     ∧ (Options.outputFormats options = None
        ∨ Options.outputFormats options = Some []
        ∨ ∃ fs, Options.outputFormats options = Some fs
                ∧ FsvgWithBackground ∈ fs))
  ∧ (Options.background options = None →
     Result.svgWithBackground r = None).
Proof.
  intros Hgen.
  destruct (processTextWithFont_Normal options font r Hgen)
    as (path & _ & _ & _ & _ & Hback).
  rewrite truthy_opt_string_true in Hback.
  assert (Hsel : shouldGenerate (Options.outputFormats options)
                   FsvgWithBackground = true
                 ↔ Options.outputFormats options = None
                   ∨ Options.outputFormats options = Some []
                   ∨ ∃ fs, Options.outputFormats options = Some fs
                           ∧ FsvgWithBackground ∈ fs).
  { destruct (Options.outputFormats options) as [[|f0 fs]|]; cbn.
    - split; auto.
    - rewrite bool_decide_eq_true. split.
      + intros Hin. right; right. eauto.
      + intros [Hnone | [Hempty | (fs' & [= <-] & Hin)]];
          [discriminate | discriminate | exact Hin].
    - split; auto. }
  split.
  - rewrite Hback, Hsel. tauto.
  - intros Hnone. destruct (Result.svgWithBackground r) as [b|]; [|reflexivity].
    destruct Hback as [Hback _].
    destruct Hback as (_ & b' & Hsome & _); [eauto | congruence].
Qed.

(** C8, the code against the claim.  An explicit [width] of [0] does not
    become the width of the generated SVG: lines 188-189 read it with [||],
    under which [0] is falsy, and the width written into the [svg] (the
    attribute and the [viewBox]) is the one computed from the bounding
    box, as if no width had been given. *)
Theorem explicit_zero_width_is_ignored (options : Options.t num)
    (font : Font) (r : Result.t) :
  processTextWithFont options font = Normal r →
  shouldGenerate (Options.outputFormats options) Fsvg = true →
  Options.width options = Some (num_of_Z 0) →
  let fontSize := default (num_of_Z 72) (Options.fontSize options) in
  let padding := num_mul fontSize num_0_2 in
  ∃ path,
    getPath font (Options.text options)
      (default (num_of_Z 0) (Options.x options))
      (default fontSize (Options.y options)) fontSize
      (default true (Options.kerning options)) = Normal path
    ∧ Result.svg r
      = svgMarkup
          (Math_ceil
             (num_add
                (num_sub (BoundingBox.x2 (getBoundingBox path))
                   (BoundingBox.x1 (getBoundingBox path)))
                (num_mul padding (num_of_Z 2))))
          (num_or (Options.height options)
             (Math_ceil
                (num_add
                   (num_sub (BoundingBox.y2 (getBoundingBox path))
                      (BoundingBox.y1 (getBoundingBox path)))
                   (num_mul padding (num_of_Z 2)))))
          (num_sub (BoundingBox.x1 (getBoundingBox path)) padding)
          (num_sub (BoundingBox.y1 (getBoundingBox path)) padding)
          (pathElementMarkup (Result.pathData r)
             (default "#000000" (Options.fill options))
             (default "none" (Options.stroke options))
             (default "0" (Options.strokeWidth options))).
Proof.
  intros Hgen Hsel Hwidth fontSize padding.
  destruct (processTextWithFont_Normal options font r Hgen)
    as (path & Hpath & Hdata & _ & Hsvg & _).
  rewrite Hsel, Hwidth in Hsvg. cbn in Hsvg.
  rewrite truthy_num_of_Z in Hsvg. cbn in Hsvg.
  exists path. split; [exact Hpath|].
  rewrite Hsvg, Hdata. reflexivity.
Qed.

(** X16.  When the [svg] format is produced, the padding is
    [fontSize * 0.2]; the width (height) is the request's [width]
    ([height]) when that is given and [ToBoolean] holds of it, and
    [ceil(bounding-box span + 2 * padding)] of its axis otherwise; the
    [viewBox] starts at [(bbox.x1 - padding, bbox.y1 - padding)] and has
    that width and height as its size; the element inside is the path
    element. *)
Theorem svg_dimensions (options : Options.t num) (font : Font)
    (r : Result.t) :
  processTextWithFont options font = Normal r →
  shouldGenerate (Options.outputFormats options) Fsvg = true →
  let fontSize := default (num_of_Z 72) (Options.fontSize options) in
  let padding := num_mul fontSize num_0_2 in
  ∃ path,
    getPath font (Options.text options)
      (default (num_of_Z 0) (Options.x options))
      (default fontSize (Options.y options)) fontSize
      (default true (Options.kerning options)) = Normal path
    ∧ let bbox := getBoundingBox path in
      let computedWidth :=
        Math_ceil
          (num_add (num_sub (BoundingBox.x2 bbox) (BoundingBox.x1 bbox))
             (num_mul padding (num_of_Z 2))) in
      let computedHeight :=
        Math_ceil
          (num_add (num_sub (BoundingBox.y2 bbox) (BoundingBox.y1 bbox))
             (num_mul padding (num_of_Z 2))) in
      ∃ width height,
        match Options.width options with
        | Some w => width = if truthy_num w then w else computedWidth
        | None => width = computedWidth
        end
        ∧ match Options.height options with
          | Some h => height = if truthy_num h then h else computedHeight
          | None => height = computedHeight
          end
        ∧ Result.svg r
          = template
              [ "<svg "; newline;
                "xmlns="; dquote; "http://www.w3.org/2000/svg"; dquote; " ";
                  newline;
                "width="; dquote; num_toString width; dquote; " "; newline;
                "height="; dquote; num_toString height; dquote; " "; newline;
                "viewBox="; dquote;
                  num_toString (num_sub (BoundingBox.x1 bbox) padding); " ";
                  num_toString (num_sub (BoundingBox.y1 bbox) padding); " ";
                  num_toString width; " "; num_toString height; dquote;
                  newline;
                ">"; newline;
                pathElementMarkup (Result.pathData r)
                  (default "#000000" (Options.fill options))
                  (default "none" (Options.stroke options))
                  (default "0" (Options.strokeWidth options)); newline;
                "</svg>" ].
Proof.
  intros Hgen Hsel fontSize padding.
  destruct (processTextWithFont_Normal options font r Hgen)
    as (path & Hpath & Hdata & _ & Hsvg & _).
  rewrite Hsel in Hsvg. exists path. split; [exact Hpath|].
  intros bbox computedWidth computedHeight.
  exists (num_or (Options.width options) computedWidth),
         (num_or (Options.height options) computedHeight).
  split; [|split].
  - unfold num_or. destruct (Options.width options); reflexivity.
  - unfold num_or. destruct (Options.height options); reflexivity.
  - rewrite Hsvg, Hdata. reflexivity.
Qed.
(** *** The single-text case *)

Lemma textToSvgPath_single_run (options : JSObject.t num)
    (single : Options.t num) :
  has_property options "text" && has_property options "fontUrl" = true →
  asOptions options = Some single →
  textToSvgPath options
  = Some ((resolveFont (Options.fontUrl single)).1,
          match (resolveFont (Options.fontUrl single)).2 with
          | Normal font =>
              match processTextWithFont single font with
              | Normal r => Normal (Single r)
              | Throw e => Throw e
              end
          | Throw e =>
              Throw (template [ "Error generating SVG path: ";
                                string_or e "Unknown error" ])
          end).
Proof.
  intros Hmode Hsingle.
  rewrite (textToSvgPath_single_mode _ _ Hmode Hsingle).
  rewrite processSingleText_run.
  destruct (resolveFont (Options.fontUrl single)).2 as [font|e]; cbn;
    [destruct (processTextWithFont single font)|]; reflexivity.
Qed.

(** X1.  In single-request mode an error thrown by generation, once the
    font is fetched and parsed, rejects the call with that error as it is:
    the promise of [processTextWithFont] is returned from the [try] without
    [await], so the handler that composes
    ["Error generating SVG path: ..."] does not see it. *)
Theorem single_generation_error_is_not_wrapped
    (options : JSObject.t num) (single : Options.t num)
    (font : Font) (e : string) :
  has_property options "text" && has_property options "fontUrl" = true →
  asOptions options = Some single →
  (resolveFont (Options.fontUrl single)).2 = Normal font →
  processTextWithFont single font = Throw e →
  textToSvgPath options
  = Some ((resolveFont (Options.fontUrl single)).1, Throw e).
Proof.
  intros Hmode Hsingle Hfont Hgen.
  rewrite (textToSvgPath_single_run _ _ Hmode Hsingle), Hfont, Hgen.
  reflexivity.
Qed.

(** X2.  In single-request mode, when [fetch] itself rejects, or when the
    body of a successful response cannot be read, the call rejects with
    ["Error generating SVG path: "] followed by the message of that error
    (["Unknown error"] when it is empty), after one fetch and without any
    call of the parser. *)
Theorem single_transport_failure_rejects
    (options : JSObject.t num) (single : Options.t num) :
  has_property options "text" && has_property options "fontUrl" = true →
  asOptions options = Some single →
  (∀ m, fetch (Options.fontUrl single) = Throw m →
     textToSvgPath options
     = Some ([EvFetch (Options.fontUrl single)],
             Throw (template
                      [ "Error generating SVG path: ";
                        if decide (m = EmptyString)
                        then "Unknown error" else m ])))
  ∧ (∀ response m,
       fetch (Options.fontUrl single) = Normal response →
       Response.ok response = true →
       Response.arrayBuffer response = Throw m →
       textToSvgPath options
       = Some ([EvFetch (Options.fontUrl single)],
               Throw (template
                        [ "Error generating SVG path: ";
                          if decide (m = EmptyString)
                          then "Unknown error" else m ]))).
Proof.
  intros Hmode Hsingle.
  rewrite (textToSvgPath_single_run _ _ Hmode Hsingle).
  unfold resolveFont, loadFont, bind, emit, lift, throw, ret.
  split.
  - intros m ->. cbn. destruct m; reflexivity.
  - intros response m -> Hok Hbuf. cbn. rewrite Hok. cbn. rewrite Hbuf. cbn.
    destruct m; reflexivity.
Qed.

(** X3.  In single-request mode the call, whether it resolves or rejects,
    fetches the request's [fontUrl] exactly once and no other URL, and
    calls the parser at most once: once when the response has a success
    status and a readable body, and not at all otherwise. *)
Theorem single_mode_resolves_one_font
    (options : JSObject.t num) (single : Options.t num) :
  has_property options "text" && has_property options "fontUrl" = true →
  asOptions options = Some single →
  ∃ tr c,
    textToSvgPath options = Some (tr, c)
    ∧ total_fetches tr = 1%nat
    ∧ fetch_count (Options.fontUrl single) tr = 1%nat
    ∧ parse_count (Options.fontUrl single) tr
      = match font_bytes fetch (Options.fontUrl single) with
        | Some _ => 1%nat
        | None => 0%nat
        end
    ∧ (∀ u, u ≠ Options.fontUrl single → parse_count u tr = 0%nat).
Proof.
  intros Hmode Hsingle.
  eexists _, _. split; [apply (textToSvgPath_single_run _ _ Hmode Hsingle)|].
  split; [|split; [|split]].
  - destruct (resolveFont_cases (Options.fontUrl single))
      as [(e & -> & _)|(r & d & _ & _ & _ & ->)]; reflexivity.
  - rewrite fetch_count_resolveFont.
    destruct (decide _); [reflexivity | congruence].
  - rewrite parse_count_resolveFont.
    destruct (decide _); [reflexivity | congruence].
  - intros u Hne. rewrite parse_count_resolveFont.
    destruct (decide _); [congruence | reflexivity].
Qed.
(** *** The multi-text case *)

Lemma total_fetches_app (t1 t2 : list Event) :
  total_fetches (t1 ++ t2) = (total_fetches t1 + total_fetches t2)%nat.
Proof. unfold total_fetches. rewrite filter_app, length_app. reflexivity. Qed.

Lemma total_fetches_resolve_all (us : list string) :
  total_fetches (concat (map (fun v => (resolveFont v).1) us)) = length us.
Proof.
  induction us as [|u us IH]; [reflexivity|].
  cbn [concat map length].
  rewrite total_fetches_app, total_fetches_resolveFont, IH. reflexivity.
Qed.

Lemma NoDup_all_equal (us : list string) (u : string) :
  NoDup us → u ∈ us → (∀ v, v ∈ us → v = u) → us = [u].
Proof.
  intros Hnd Hin Hall. destruct us as [|v us]; [inversion Hin|].
  assert (v = u) as -> by (apply Hall, elem_of_cons; auto).
  destruct us as [|w us]; [reflexivity|].
  assert (w = u) as -> by (apply Hall; rewrite !elem_of_cons; auto).
  apply NoDup_cons in Hnd as [Hnotin _].
  exfalso. apply Hnotin, elem_of_cons. auto.
Qed.

Lemma parse_in_resolveFont (v u : string) (d : list Byte.byte) :
  EvParse u d ∈ (resolveFont v).1 →
  u = v
  ∧ EvFetch v ∈ (resolveFont v).1
  ∧ ∃ response, fetch v = Normal response
                ∧ Response.ok response = true
                ∧ Response.arrayBuffer response = Normal d.
Proof.
  destruct (resolveFont_cases v)
    as [(e & -> & _)|(r & d' & Hf & Hok & Hbuf & ->)]; cbn.
  - rewrite list_elem_of_singleton. discriminate.
  - rewrite !elem_of_cons. intros [Heq | [Heq | Hnil]];
      [discriminate | | inversion Hnil].
    injection Heq as -> ->.
    split; [reflexivity|]. split; [auto | eauto].
Qed.

Lemma first_throw_None_inv multiOptions (font : Font) (ks : list string)
    (k : string) :
  first_throw (generated multiOptions font <$> ks) = None →
  k ∈ ks → ∃ r, generated multiOptions font k = Normal r.
Proof.
  induction ks as [|k0 ks IH]; intros Hnone Hin; [inversion Hin|].
  cbn in Hnone.
  destruct (generated multiOptions font k0) as [r|e] eqn:Hgen;
    [|discriminate].
  apply elem_of_cons in Hin as [-> | Hin]; eauto.
Qed.

(** X5.  A batch none of whose requests names a member of
    [Object.prototype] as its font URL performs as many fetches as its
    requests name distinct font URLs (each of them is fetched, none twice),
    hence never more than it has labels; when all its requests name one
    URL, its external calls are those of resolving that one font: a single
    fetch and at most a single parse. *)
Theorem batch_fetches_once_per_distinct_url
    (options : JSObject.t num) multiOptions :
  has_property options "text" && has_property options "fontUrl" = false →
  asMultiOptions (JSObject.own options) = Some multiOptions →
  fontUrl_is_inherited multiOptions = false →
  ∃ tr result (urls : list string),
    textToSvgPath options = Some (tr, Normal (Multi result))
    ∧ NoDup urls
    ∧ (∀ u, u ∈ urls
            ↔ ∃ k opts, obj_get multiOptions k = Some opts
                        ∧ Options.fontUrl opts = u)
    ∧ total_fetches tr = length urls
    ∧ (total_fetches tr ≤ length (JSObject.own options))%nat
    ∧ (∀ u, JSObject.own options ≠ [] →
         (∀ k opts, obj_get multiOptions k = Some opts →
                    Options.fontUrl opts = u) →
         tr = (resolveFont u).1).
Proof.
  intros Hmode Hmulti Hsafe.
  destruct (textToSvgPath_multi_spec options multiOptions Hmode Hmulti Hsafe)
    as (urls & result & Hrun & Hnd & Hurls & _).
  eexists _, result, urls. split; [exact Hrun|].
  split; [exact Hnd|]. split; [exact Hurls|].
  rewrite total_fetches_resolve_all. split; [reflexivity|]. split.
  - assert (Hlen : length (JSObject.own options) = length multiOptions).
    { rewrite <- (length_fmap fst (JSObject.own options)),
        <- (length_fmap fst multiOptions).
      rewrite (asMultiOptions_keys _ _ Hmulti). reflexivity. }
    rewrite Hlen,
      <- (length_fmap (fun kv => Options.fontUrl kv.2) multiOptions).
    apply submseteq_length, NoDup_submseteq; [exact Hnd|].
    intros u Hu. apply Hurls in Hu as (k & opts & Hget & <-).
    apply list_elem_of_fmap. exists (k, opts).
    split; [reflexivity | apply obj_get_Some_elem_of_pair, Hget].
  - intros u Hne Hall.
    assert (Hu : u ∈ urls).
    { destruct (JSObject.own options) as [|[k0 v0] options'];
        [contradiction|].
      cbn in Hmulti. destruct v0; try discriminate.
      destruct (asMultiOptions options') as [m|]; [|discriminate].
      injection Hmulti as <-.
      apply Hurls. exists k0, o. split; [apply obj_get_head|].
      apply (Hall k0 o), obj_get_head. }
    rewrite (NoDup_all_equal urls u Hnd Hu).
    + cbn. apply app_nil_r.
    + intros v Hv. apply Hurls in Hv as (k & opts & Hget & <-).
      apply (Hall k opts Hget).
Qed.

(** X6.  In either mode the parser is only ever handed bytes that were
    fetched in the same call: every parse in the trace is for a URL that the
    call fetched, and its bytes are the body of that URL's response, which
    had a success status. *)
Theorem parser_only_sees_fetched_bytes
    (options : JSObject.t num) (tr : list Event)
    (c : Completion Resolved) (u : string) (d : list Byte.byte) :
  textToSvgPath options = Some (tr, c) →
  EvParse u d ∈ tr →
  EvFetch u ∈ tr
  ∧ ∃ response, fetch u = Normal response
                ∧ Response.ok response = true
                ∧ Response.arrayBuffer response = Normal d.
Proof.
  intros Hrun Hparse.
  destruct (has_property options "text" && has_property options "fontUrl")
    eqn:Hmode.
  - destruct (asOptions options) as [single|] eqn:Hsingle.
    + rewrite (textToSvgPath_single_run _ _ Hmode Hsingle) in Hrun.
      injection Hrun as <- _.
      apply parse_in_resolveFont in Hparse as (-> & Hfetch & Hbytes). auto.
    + unfold textToSvgPath in Hrun. rewrite Hmode, Hsingle in Hrun.
      destruct (asRequests options); [|discriminate]. cbn in Hrun.
      rewrite processSingleText_collection_run in Hrun.
      destruct (resolveFont object_toString).2; [discriminate|].
      injection Hrun as <- _.
      apply parse_in_resolveFont in Hparse as (-> & Hfetch & Hbytes). auto.
  - destruct (asMultiOptions (JSObject.own options)) as [multiOptions|]
      eqn:Hmulti.
    + destruct (fontUrl_is_inherited multiOptions) eqn:Hsafe.
      { rewrite (textToSvgPath_multi_rejects _ _ Hmode Hmulti Hsafe) in Hrun.
        injection Hrun as <- _. inversion Hparse. }
      destruct (textToSvgPath_multi_spec options multiOptions Hmode Hmulti
                  Hsafe) as (urls & result & Hrun' & _).
      rewrite Hrun' in Hrun. injection Hrun as <- _.
      apply list_elem_of_In, in_concat in Hparse as (t & Ht & Hin).
      apply in_map_iff in Ht as (v & <- & Hv).
      apply list_elem_of_In in Hin.
      apply parse_in_resolveFont in Hin as (-> & Hfetch & Hbytes).
      split; [|exact Hbytes].
      apply list_elem_of_In, in_concat. eexists. split.
      * apply in_map_iff. exists v. split; [reflexivity | exact Hv].
      * apply list_elem_of_In, Hfetch.
    + unfold textToSvgPath in Hrun. rewrite Hmode, Hmulti in Hrun.
      discriminate.
Qed.

(** X7.  The grouping loop makes no external call and does not touch
    [result].  It throws the [TypeError] of calling [push] on a member of
    [Object.prototype] exactly when some request names such a member
    (['constructor'], ['toString'], ['__proto__'], ...) as its font URL.
    Otherwise it completes, and [fontGroups] partitions the labels by font
    URL: its keys are distinct, no group is empty, a group holds exactly
    the labels whose request names its URL, in the order of [Object.keys],
    and every label is in the group of its own URL and in no other. *)
Theorem grouping_partitions_labels multiOptions
    (result : ResultObject.t) :
  (fontUrl_is_inherited multiOptions = true
   ↔ ∃ k opts, obj_get multiOptions k = Some opts
               ∧ Options.fontUrl opts ∈ Object_prototype_names)
  ∧ (fontUrl_is_inherited multiOptions = true →
     groupByFontUrl multiOptions (Object_keys multiOptions) result
     = ([], result, Throw push_is_not_a_function))
  ∧ (fontUrl_is_inherited multiOptions = false →
     ∃ fontGroups,
       groupByFontUrl multiOptions (Object_keys multiOptions) result
       = ([], result, Normal fontGroups)
       ∧ NoDup fontGroups.*1
       ∧ (∀ u group, obj_get fontGroups u = Some group →
            group ≠ []
            ∧ group
              = filter (fun k => url_of multiOptions k = Some u)
                  (Object_keys multiOptions)
            ∧ (∀ k, k ∈ group
                    ↔ ∃ opts, obj_get multiOptions k = Some opts
                              ∧ Options.fontUrl opts = u))
       ∧ (∀ k opts, obj_get multiOptions k = Some opts →
            ∃ group, obj_get fontGroups (Options.fontUrl opts) = Some group
                     ∧ k ∈ group
                     ∧ (∀ u group', obj_get fontGroups u = Some group' →
                          k ∈ group' → u = Options.fontUrl opts))).
Proof.
  split; [|split].
  - split.
    + unfold fontUrl_is_inherited. intros Hex.
      apply existsb_exists in Hex as (k & _ & Hk).
      apply names_inherited_true in Hk as (opts & Hget & Hin). eauto.
    + intros (k & opts & Hget & Hin).
      destruct (fontUrl_is_inherited multiOptions) eqn:Hsafe; [reflexivity|].
      exfalso. revert Hin.
      apply (proj1 (fontUrl_is_inherited_false multiOptions) Hsafe k opts Hget).
  - apply groupByFontUrl_throws.
  - intros Hsafe.
    destruct (groupByFontUrl_run multiOptions result Hsafe)
      as (fontGroups & Hrun & Hinv & Hnd).
    exists fontGroups. split; [exact Hrun|]. split; [exact Hnd|].
    assert (Hgroups : ∀ u group, obj_get fontGroups u = Some group →
              group ≠ [] ∧ group = group_of multiOptions u).
    { intros u group Hget. rewrite Hinv in Hget.
      pose proof (group_lookup_Some _ _ _ Hget) as ->.
      rewrite group_lookup_keys in Hget.
      destruct (group_of multiOptions u); [discriminate | auto]. }
    split.
    + intros u group Hget. destruct (Hgroups u group Hget) as [Hne ->].
      split; [exact Hne|]. split; [reflexivity | apply elem_of_group_of].
    + intros k opts Hk.
      assert (Hin : k ∈ group_of multiOptions (Options.fontUrl opts))
        by (apply elem_of_group_of; eauto).
      destruct (obj_get fontGroups (Options.fontUrl opts)) as [group|]
        eqn:Hget.
      * destruct (Hgroups _ _ Hget) as [_ ->].
        exists (group_of multiOptions (Options.fontUrl opts)).
        split; [reflexivity|]. split; [exact Hin|].
        intros u group' Hget' Hin'. destruct (Hgroups _ _ Hget') as [_ ->].
        apply elem_of_group_of in Hin' as (opts' & Hk' & <-). congruence.
      * rewrite Hinv, group_lookup_keys in Hget.
        destruct (group_of multiOptions (Options.fontUrl opts));
          [inversion Hin | discriminate].
Qed.

(** X8.  A font group is settled as a whole: in the mapping that a batch
    resolves with when none of its requests names a member of
    [Object.prototype] as its font URL, either reading any label of the
    group gives the degraded result for one and the same error, or the
    font was resolved and reading any label of the group gives the result
    generated for its own request. *)
Theorem font_group_is_all_or_nothing (options : JSObject.t num)
    multiOptions :
  has_property options "text" && has_property options "fontUrl" = false →
  asMultiOptions (JSObject.own options) = Some multiOptions →
  fontUrl_is_inherited multiOptions = false →
  ∃ tr result,
    textToSvgPath options = Some (tr, Normal (Multi result))
    ∧ ∀ u,
        (∃ e, ∀ k opts, obj_get multiOptions k = Some opts →
                Options.fontUrl opts = u →
                ResultObject.read result k = Some (errorResult e))
        ∨ (∃ font, (resolveFont u).2 = Normal font
                   ∧ ∀ k opts, obj_get multiOptions k = Some opts →
                       Options.fontUrl opts = u →
                       ∃ r, processTextWithFont opts font = Normal r
                            ∧ ResultObject.read result k = Some r).
Proof.
  intros Hmode Hmulti Hsafe.
  destruct (textToSvgPath_multi_spec options multiOptions Hmode Hmulti Hsafe)
    as (urls & result & Hrun & _ & _ & Hget & _).
  eexists _, result. split; [exact Hrun|]. intros u.
  destruct (resolveFont u).2 as [font|e] eqn:Hfont.
  - destruct (first_throw (generated multiOptions font
                             <$> group_of multiOptions u)) as [e|] eqn:Hfirst.
    + left. exists e. intros k opts Hk <-. rewrite (Hget k opts Hk).
      unfold label_result, group_value. rewrite Hfont, Hfirst. reflexivity.
    + right. exists font. split; [reflexivity|]. intros k opts Hk <-.
      destruct (first_throw_None_inv multiOptions font _ k Hfirst)
        as [r Hgen]; [apply elem_of_group_of; eauto|].
      exists r. rewrite <- (generated_get _ _ _ _ Hk). split; [exact Hgen|].
      rewrite (Hget k opts Hk). unfold label_result, group_value.
      rewrite Hfont, Hfirst. unfold generated_value. rewrite Hgen. reflexivity.
  - left. exists e. intros k opts Hk <-. rewrite (Hget k opts Hk).
    unfold label_result, group_value. rewrite Hfont. reflexivity.
Qed.

(** X14.  In batch mode, when no request names a member of
    [Object.prototype] as its font URL and fetching or parsing the font of
    one font group fails with an error [e], the promise still resolves,
    with a mapping whose keys are the labels of the argument (['__proto__']
    apart); reading a label of the failing group gives the degraded
    result: empty [pathData], empty [pathElement], an [svg] that carries
    the message of [e] as text, and no [svgWithBackground]; and reading a
    label of a group whose font is resolved and whose requests all generate
    gives its generated result. *)
Theorem batch_font_failure_is_isolated (options : JSObject.t num)
    multiOptions (u e : string) :
  has_property options "text" && has_property options "fontUrl" = false →
  asMultiOptions (JSObject.own options) = Some multiOptions →
  fontUrl_is_inherited multiOptions = false →
  (resolveFont u).2 = Throw e →
  ∃ tr result,
    textToSvgPath options = Some (tr, Normal (Multi result))
    ∧ (∀ k, k ∈ ResultObject.keys result
            ↔ k ∈ (JSObject.own options).*1 ∧ k ≠ "__proto__")
    ∧ (∀ k opts, obj_get multiOptions k = Some opts →
         Options.fontUrl opts = u →
         ∃ r, ResultObject.read result k = Some r
              ∧ Result.pathData r = EmptyString
              ∧ Result.pathElement r = EmptyString
              ∧ Result.svg r
                = template [ "<svg><text>Error: "; e; "</text></svg>" ]
              ∧ Result.svgWithBackground r = None)
    ∧ (∀ k opts font r, obj_get multiOptions k = Some opts →
         (resolveFont (Options.fontUrl opts)).2 = Normal font →
         (∀ k' opts', obj_get multiOptions k' = Some opts' →
            Options.fontUrl opts' = Options.fontUrl opts →
            ∃ r', processTextWithFont opts' font = Normal r') →
         processTextWithFont opts font = Normal r →
         ResultObject.read result k = Some r).
Proof.
  intros Hmode Hmulti Hsafe Hfail.
  destruct (textToSvgPath_multi_spec options multiOptions Hmode Hmulti Hsafe)
    as (urls & result & Hrun & _ & _ & Hget & Hkeys & _).
  exists (concat (map (fun v => (resolveFont v).1) urls)), result.
  split; [exact Hrun|]. split.
  { intros k. unfold ResultObject.keys. rewrite elem_of_Object_keys.
    apply Hkeys. }
  split.
  - intros k opts Hk Hurl. exists (errorResult e).
    rewrite (Hget k opts Hk), Hurl. unfold label_result, group_value.
    rewrite Hfail. auto.
  - intros k opts font r Hk Hfont Hall Hgen.
    rewrite (Hget k opts Hk). unfold label_result, group_value.
    rewrite Hfont, first_throw_None.
    + unfold generated_value. rewrite (generated_get _ _ _ _ Hk), Hgen.
      reflexivity.
    + intros k' Hk'. apply elem_of_group_of in Hk' as (opts' & Hget' & Hurl').
      rewrite (generated_get _ _ _ _ Hget'). eauto.
Qed.

(** X15.  The shape of what a call gives.  In batch mode the promise
    rejects, before any external call, when some request names a member of
    [Object.prototype] as its font URL; otherwise it resolves with a
    mapping whose keys are the labels of the argument, each once, the
    label ['__proto__'] left out, whatever became of the font groups.  A
    single request resolves with a single result or rejects, and never
    yields a mapping. *)
Theorem output_shape_mirrors_input (options : JSObject.t num) :
  (∀ multiOptions,
     has_property options "text" && has_property options "fontUrl" = false →
     asMultiOptions (JSObject.own options) = Some multiOptions →
     (fontUrl_is_inherited multiOptions = true →
      textToSvgPath options = Some ([], Throw push_is_not_a_function))
     ∧ (fontUrl_is_inherited multiOptions = false →
        ∃ tr result,
          textToSvgPath options = Some (tr, Normal (Multi result))
          ∧ NoDup (ResultObject.keys result)
          ∧ (∀ k, k ∈ ResultObject.keys result
                  ↔ k ∈ (JSObject.own options).*1 ∧ k ≠ "__proto__")
          ∧ (NoDup (JSObject.own options).*1 →
             "__proto__" ∉ (JSObject.own options).*1 →
             ResultObject.keys result ≡ₚ (JSObject.own options).*1)))
  ∧ (∀ single,
       has_property options "text" && has_property options "fontUrl" = true →
       asOptions options = Some single →
       ((∃ tr r, textToSvgPath options = Some (tr, Normal (Single r)))
        ∨ (∃ tr e, textToSvgPath options = Some (tr, Throw e)))
       ∧ (∀ font r,
            (resolveFont (Options.fontUrl single)).2 = Normal font →
            processTextWithFont single font = Normal r →
            textToSvgPath options
            = Some ((resolveFont (Options.fontUrl single)).1,
                    Normal (Single r)))).
Proof.
  split.
  - intros multiOptions Hmode Hmulti. split.
    + apply (textToSvgPath_multi_rejects _ _ Hmode Hmulti).
    + intros Hsafe.
      destruct (textToSvgPath_multi_spec options multiOptions Hmode Hmulti
                  Hsafe) as (urls & result & Hrun & _ & _ & _ & Hkeys & Hnd).
      exists (concat (map (fun v => (resolveFont v).1) urls)), result.
      assert (Hkeys' : ∀ k, k ∈ ResultObject.keys result
                ↔ k ∈ (JSObject.own options).*1 ∧ k ≠ "__proto__").
      { intros k. unfold ResultObject.keys. rewrite elem_of_Object_keys.
        apply Hkeys. }
      assert (Hnd' : NoDup (ResultObject.keys result))
        by apply NoDup_Object_keys, Hnd.
      split; [exact Hrun|]. split; [exact Hnd'|]. split; [exact Hkeys'|].
      intros Hndo Hproto. apply NoDup_Permutation; [assumption..|].
      intros k. rewrite Hkeys'. split; [tauto|].
      intros Hk. split; [exact Hk | congruence].
  - intros single Hmode Hsingle.
    rewrite (textToSvgPath_single_run _ _ Hmode Hsingle). split.
    + destruct (resolveFont (Options.fontUrl single)).2 as [font|e];
        [destruct (processTextWithFont single font)|]; eauto.
    + intros font r -> ->. reflexivity.
Qed.

(** The placeholder of a failed group is no generated result. *)
Lemma errorResult_is_not_generated (options : Options.t num) (font : Font)
    (r : Result.t) (e : string) :
  processTextWithFont options font = Normal r → errorResult e ≠ r.
Proof.
  intros Hgen Heq.
  destruct (processTextWithFont_Normal options font r Hgen)
    as (path & _ & _ & _ & Hsvg & _).
  rewrite <- Heq in Hsvg. revert Hsvg.
  destruct (shouldGenerate _ Fsvg); cbn; discriminate.
Qed.

(** C9.  In batch mode the font of a group is resolved and its labels are
    generated inside one [try]: when, in a call that gets to the font group
    (it fetches the group's font URL), generation throws for any label of
    the group, the call resolves with a mapping in which every label of the
    group, those whose results were already stored included, ends with the
    degraded result for the error that was thrown (by some label of the
    group), and not with the result generated for it. *)
Theorem generation_failure_degrades_group
    (options : JSObject.t num) multiOptions (tr : list Event)
    (c : Completion Resolved) (u : string)
    (font : Font) (k0 : string) (opts0 : Options.t num) (e0 : string) :
  has_property options "text" && has_property options "fontUrl" = false →
  asMultiOptions (JSObject.own options) = Some multiOptions →
  textToSvgPath options = Some (tr, c) →
  EvFetch u ∈ tr →
  (resolveFont u).2 = Normal font →
  obj_get multiOptions k0 = Some opts0 →
  Options.fontUrl opts0 = u →
  processTextWithFont opts0 font = Throw e0 →
  ∃ result e,
    c = Normal (Multi result)
    ∧ (∃ k1 opts1, obj_get multiOptions k1 = Some opts1
                   ∧ Options.fontUrl opts1 = u
                   ∧ processTextWithFont opts1 font = Throw e)
    ∧ (∀ k opts, obj_get multiOptions k = Some opts →
         Options.fontUrl opts = u →
         ResultObject.read result k = Some (errorResult e)
         ∧ ∀ r, processTextWithFont opts font = Normal r →
                ResultObject.read result k ≠ Some r).
Proof.
  intros Hmode Hmulti Hcall Hfetched Hfont Hk0 Hurl0 Hthrow0.
  destruct (fontUrl_is_inherited multiOptions) eqn:Hsafe.
  { rewrite (textToSvgPath_multi_rejects _ _ Hmode Hmulti Hsafe) in Hcall.
    injection Hcall as <- _. inversion Hfetched. }
  destruct (textToSvgPath_multi_spec options multiOptions Hmode Hmulti Hsafe)
    as (urls & result & Hrun & _ & _ & Hget & _).
  rewrite Hrun in Hcall. injection Hcall as _ <-.
  destruct (first_throw_Some multiOptions font (group_of multiOptions u) k0 e0)
    as (e & k1 & Hk1 & Hgen1 & Hfirst).
  { apply elem_of_group_of. eauto. }
  { rewrite (generated_get _ _ _ _ Hk0). exact Hthrow0. }
  apply elem_of_group_of in Hk1 as (opts1 & Hget1 & Hurl1).
  exists result, e. split; [reflexivity|]. split.
  - exists k1, opts1. rewrite <- (generated_get _ _ _ _ Hget1). auto.
  - intros k opts Hk Hurl.
    assert (Hres : ResultObject.read result k = Some (errorResult e)).
    { rewrite (Hget k opts Hk), Hurl.
      unfold label_result, group_value. rewrite Hfont, Hfirst. reflexivity. }
    split; [exact Hres|].
    intros r Hgen. rewrite Hres. intros [= Heq].
    apply (errorResult_is_not_generated opts font r e Hgen Heq).
Qed.

(** *** Generation *)

Lemma shouldGenerate_ext (fs fs' : list OutputFormat) :
  (∀ f, f ∈ fs ↔ f ∈ fs') →
  ∀ f, shouldGenerate (Some fs) f = shouldGenerate (Some fs') f.
Proof.
  intros Hsame f. destruct fs as [|f0 fs], fs' as [|f0' fs']; cbn.
  - reflexivity.
  - exfalso. assert (Hin : f0' ∈ []) by (apply Hsame, elem_of_cons; auto).
    inversion Hin.
  - exfalso. assert (Hin : f0 ∈ []) by (apply Hsame, elem_of_cons; auto).
    inversion Hin.
  - apply bool_decide_ext, Hsame.
Qed.

Lemma processTextWithFont_formats_ext (options : Options.t num) (font : Font)
    (fs fs' : option (list OutputFormat)) :
  shouldGenerate fs FpathElement = shouldGenerate fs' FpathElement →
  shouldGenerate fs Fsvg = shouldGenerate fs' Fsvg →
  shouldGenerate fs FsvgWithBackground
  = shouldGenerate fs' FsvgWithBackground →
  processTextWithFont (setOutputFormats fs options) font
  = processTextWithFont (setOutputFormats fs' options) font.
Proof.
  intros Helem Hsvg Hback.
  unfold processTextWithFont, setOutputFormats. cbn.
  rewrite Helem, Hsvg, Hback. reflexivity.
Qed.

(** X9.  [outputFormats] only filters.  Whatever the list, generation
    completes exactly when it does without a list, [pathData] is the same,
    and each of [pathElement], [svg] and [svgWithBackground] is either what
    the unfiltered request gives or left out (empty, resp. absent); in
    particular the [svg] is the same whether or not [pathElement] is
    produced beside it. *)
Theorem outputFormats_only_filters (options : Options.t num) (font : Font)
    (fs : option (list OutputFormat)) (unfiltered : Result.t) :
  processTextWithFont (setOutputFormats None options) font
  = Normal unfiltered →
  ∃ r,
    processTextWithFont (setOutputFormats fs options) font = Normal r
    ∧ Result.pathData r = Result.pathData unfiltered
    ∧ Result.pathElement r
      = (if shouldGenerate fs FpathElement
         then Result.pathElement unfiltered else EmptyString)
    ∧ Result.svg r
      = (if shouldGenerate fs Fsvg
         then Result.svg unfiltered else EmptyString)
    ∧ Result.svgWithBackground r
      = (if shouldGenerate fs FsvgWithBackground
         then Result.svgWithBackground unfiltered else None).
Proof.
  unfold processTextWithFont, setOutputFormats. cbn.
  destruct (getPath _ _ _ _ _ _) as [path|e]; [|discriminate].
  intros [= <-]. eexists. split; [reflexivity|]. cbn.
  split; [reflexivity|]. split; [reflexivity|]. split.
  - destruct (shouldGenerate fs Fsvg); [|reflexivity].
    destruct (shouldGenerate fs FpathElement); reflexivity.
  - destruct (shouldGenerate fs FsvgWithBackground); reflexivity.
Qed.

Lemma shouldGenerate_pathData_named (f0 : OutputFormat)
    (fs : list OutputFormat) (f : OutputFormat) :
  f ≠ FpathData →
  shouldGenerate (Some (FpathData :: f0 :: fs)) f
  = shouldGenerate (Some (f0 :: fs)) f.
Proof.
  intros Hne. cbn. apply bool_decide_ext.
  rewrite (elem_of_cons (f0 :: fs)). split; [|auto].
  intros [Heq | Hin]; [congruence | exact Hin].
Qed.

(** X10.  [outputFormats] is read as a set: two lists with the same members
    (in any order, with any repetitions) give the same outcome; and naming
    ['pathData'] in a list that names something else as well changes
    nothing. *)
Theorem outputFormats_is_a_set (options : Options.t num) (font : Font)
    (fs fs' : list OutputFormat) :
  (∀ f, f ∈ fs ↔ f ∈ fs') →
  processTextWithFont (setOutputFormats (Some fs) options) font
  = processTextWithFont (setOutputFormats (Some fs') options) font
  ∧ (fs ≠ [] →
     processTextWithFont (setOutputFormats (Some (FpathData :: fs)) options)
       font
     = processTextWithFont (setOutputFormats (Some fs) options) font).
Proof.
  intros Hsame. split.
  - apply processTextWithFont_formats_ext; apply shouldGenerate_ext, Hsame.
  - intros Hne. destruct fs as [|f0 fs]; [contradiction|].
    apply processTextWithFont_formats_ext;
      apply shouldGenerate_pathData_named; discriminate.
Qed.

(** X11.  Writing the documented defaults out changes nothing: a request
    generates exactly what the request does in which [fontSize] (72),
    [fill], [stroke], [strokeWidth], [kerning], [x] (0), [y] (the font size
    in effect, not 72), and the background canvas (400 by 200) and offset
    (50, 120) are given explicitly with their default values. *)
Theorem explicit_defaults_change_nothing (options : Options.t num)
    (font : Font) :
  processTextWithFont (withDefaults options) font
  = processTextWithFont options font.
Proof. reflexivity. Qed.

(** X12.  A degraded result cannot be taken for a generated one: the [svg]
    of a generated result is empty or begins as an [svg] element with
    attributes, never as the error placeholder, whatever the error
    message. *)
Theorem degraded_svg_differs_from_generated (options : Options.t num)
    (font : Font) (r : Result.t) (e : string) :
  processTextWithFont options font = Normal r →
  Result.svg r ≠ Result.svg (errorResult e)
  ∧ Result.svgWithBackground (errorResult e) = None
  ∧ Result.pathData (errorResult e) = EmptyString.
Proof.
  intros Hgen.
  destruct (processTextWithFont_Normal options font r Hgen) as (path & _ & _ & _ & Hsvg & _).
  split; [|split; reflexivity].
  rewrite Hsvg. destruct (shouldGenerate _ Fsvg); cbn; discriminate.
Qed.
End Runs.

(** * Two calls

    A call reads the world through [fetch].  Between two calls the world
    may change, so each call is given its own [fetch]; what is proved of
    two calls says which URLs the two must answer alike. *)
Section TwoCalls.
Context {num : Type} `{JSNumber num}.
Variable fetch : string -> Completion Response.t.
Variable fetch' : string -> Completion Response.t.
Context {Font Path : Type}.
Variable opentype_parse : list Byte.byte -> Completion Font.
Variable getPath :
  Font -> string -> num -> num -> num -> bool -> Completion Path.
Variable toPathData : Path -> N -> string.
Variable getBoundingBox : Path -> BoundingBox.t num.

Local Abbreviation processTextWithFont :=
  (processTextWithFont getPath toPathData getBoundingBox).
Local Abbreviation generated := (generated getPath toPathData getBoundingBox).
Local Abbreviation generated_value :=
  (generated_value getPath toPathData getBoundingBox).

Implicit Types (multiOptions : list (string * Options.t num)).

Lemma resolveFont_same_response (u : string) :
  fetch' u = fetch u →
  resolveFont fetch' opentype_parse u = resolveFont fetch opentype_parse u.
Proof.
  intros Hsame. unfold resolveFont, loadFont, bind, emit, lift.
  rewrite Hsame. reflexivity.
Qed.

(** X4.  Batch and single mode agree on a request that succeeds.  When a
    single request resolves with a result, then in a batch call to which
    the request's font URL answers as it did to the single call, reading
    the label of the same request gives that same result, provided every
    request of its font group generates and no request of the batch names
    a member of [Object.prototype] as its font URL. *)
Theorem batch_agrees_with_single
    (singleArgument batchArgument : JSObject.t num)
    (single : Options.t num) multiOptions (k : string) (tr : list Event)
    (r : Result.t) :
  has_property singleArgument "text"
  && has_property singleArgument "fontUrl" = true →
  asOptions singleArgument = Some single →
  textToSvgPath fetch opentype_parse getPath toPathData getBoundingBox
    singleArgument = Some (tr, Normal (Single r)) →
  has_property batchArgument "text"
  && has_property batchArgument "fontUrl" = false →
  asMultiOptions (JSObject.own batchArgument) = Some multiOptions →
  fontUrl_is_inherited multiOptions = false →
  fetch' (Options.fontUrl single) = fetch (Options.fontUrl single) →
  obj_get multiOptions k = Some single →
  (∀ k' opts' font,
     obj_get multiOptions k' = Some opts' →
     Options.fontUrl opts' = Options.fontUrl single →
     (resolveFont fetch' opentype_parse (Options.fontUrl single)).2
     = Normal font →
     ∃ r', processTextWithFont opts' font = Normal r') →
  ∃ tr' result,
    textToSvgPath fetch' opentype_parse getPath toPathData getBoundingBox
      batchArgument = Some (tr', Normal (Multi result))
    ∧ ResultObject.read result k = Some r.
Proof.
  intros Hsmode Hsingle Hsrun Hbmode Hmulti Hsafe Hsame Hk Hgroup.
  rewrite (textToSvgPath_single_run fetch opentype_parse getPath toPathData
             getBoundingBox _ _ Hsmode Hsingle) in Hsrun.
  rewrite <- (resolveFont_same_response _ Hsame) in Hsrun.
  destruct (resolveFont fetch' opentype_parse (Options.fontUrl single)).2
    as [font|e] eqn:Hfont; [|discriminate].
  destruct (processTextWithFont single font) as [r0|e] eqn:Hgen;
    [|discriminate].
  injection Hsrun as _ <-.
  destruct (textToSvgPath_multi_spec fetch' opentype_parse getPath toPathData
              getBoundingBox batchArgument multiOptions Hbmode Hmulti Hsafe)
    as (urls & result & Hrun & _ & _ & Hget & _).
  eexists _, result. split; [exact Hrun|].
  rewrite (Hget k single Hk). unfold label_result, group_value.
  rewrite Hfont, first_throw_None.
  - unfold generated_value. rewrite (generated_get _ _ _ _ _ _ _ Hk), Hgen.
    reflexivity.
  - intros k' Hk'. apply elem_of_group_of in Hk' as (opts' & Hget' & Hurl').
    rewrite (generated_get _ _ _ _ _ _ _ Hget'). eauto.
Qed.

(** X13.  Font groups do not interfere.  Take two batch calls, neither with
    a request that names a member of [Object.prototype] as its font URL,
    and a font URL that answers both calls alike.  When the two batches
    have the same labels for that URL, in the same order, with the same
    requests, reading a label of that font group gives the same result in
    both, whatever the other requests of the two batches are, whatever
    their URLs answer and whatever becomes of them. *)
Theorem font_groups_do_not_interfere
    (options options' : JSObject.t num) multiOptions
    multiOptions' (u : string) :
  has_property options "text" && has_property options "fontUrl" = false →
  asMultiOptions (JSObject.own options) = Some multiOptions →
  fontUrl_is_inherited multiOptions = false →
  has_property options' "text" && has_property options' "fontUrl" = false →
  asMultiOptions (JSObject.own options') = Some multiOptions' →
  fontUrl_is_inherited multiOptions' = false →
  fetch' u = fetch u →
  group_of multiOptions u = group_of multiOptions' u →
  (∀ k, k ∈ group_of multiOptions u →
        obj_get multiOptions k = obj_get multiOptions' k) →
  ∃ tr result tr' result',
    textToSvgPath fetch opentype_parse getPath toPathData getBoundingBox
      options = Some (tr, Normal (Multi result))
    ∧ textToSvgPath fetch' opentype_parse getPath toPathData getBoundingBox
        options' = Some (tr', Normal (Multi result'))
    ∧ ∀ k, k ∈ group_of multiOptions u →
           is_Some (ResultObject.read result k)
           ∧ ResultObject.read result k = ResultObject.read result' k.
Proof.
  intros Hmode Hmulti Hsafe Hmode' Hmulti' Hsafe' Hsame Hgroup Hreqs.
  destruct (textToSvgPath_multi_spec fetch opentype_parse getPath toPathData
              getBoundingBox options multiOptions Hmode Hmulti Hsafe)
    as (urls & result & Hrun & _ & _ & Hget & _).
  destruct (textToSvgPath_multi_spec fetch' opentype_parse getPath toPathData
              getBoundingBox options' multiOptions' Hmode' Hmulti' Hsafe')
    as (urls' & result' & Hrun' & _ & _ & Hget' & _).
  eexists _, result, _, result'. split; [exact Hrun|]. split; [exact Hrun'|].
  intros k Hk.
  assert (Hgen : ∀ font k', k' ∈ group_of multiOptions u →
            generated multiOptions font k' = generated multiOptions' font k').
  { intros font k' Hk'. unfold generated. rewrite (Hreqs k' Hk').
    reflexivity. }
  pose proof Hk as Hk0.
  apply elem_of_group_of in Hk0 as (opts & Hopts & Hurl).
  assert (Hopts' : obj_get multiOptions' k = Some opts)
    by (rewrite <- (Hreqs k Hk); exact Hopts).
  rewrite (Hget k opts Hopts), (Hget' k opts Hopts'), Hurl.
  split; [eauto|]. f_equal.
  unfold label_result, group_value. rewrite <- Hgroup.
  rewrite (resolveFont_same_response _ Hsame).
  destruct (resolveFont fetch opentype_parse u).2 as [font|e]; [|reflexivity].
  assert (Hmap : generated multiOptions font <$> group_of multiOptions u
                 = generated multiOptions' font <$> group_of multiOptions u).
  { apply list_fmap_ext. intros i k' Hlook. apply Hgen.
    eapply list_elem_of_lookup_2, Hlook. }
  rewrite <- Hmap. unfold generated_value. rewrite (Hgen font k Hk).
  reflexivity.
Qed.
End TwoCalls.

(** * The properties in the small world *)

(** ** The claims *)

Lemma batch_resolves_each_font_once_witness :
  ∃ tr result,
    Demo.textToSvgPath Demo.batchArgument = Some (tr, Normal (Multi result))
    ∧ (∀ k opts, obj_get Demo.batch k = Some opts →
         fetch_count (Options.fontUrl opts) tr = 1%nat
         ∧ parse_count (Options.fontUrl opts) tr
           = match font_bytes Demo.fetch (Options.fontUrl opts) with
             | Some _ => 1%nat
             | None => 0%nat
             end)
    ∧ (∀ u, (∀ k opts, obj_get Demo.batch k = Some opts →
                       Options.fontUrl opts ≠ u) →
            fetch_count u tr = 0%nat ∧ parse_count u tr = 0%nat).
Proof.
  apply (batch_resolves_each_font_once Demo.fetch Demo.opentype_parse
           Demo.getPath Demo.toPathData Demo.getBoundingBox
           Demo.batchArgument Demo.batch); reflexivity.
Defined.

(** Against C1 as stated: a font whose fetch has no success status is
    fetched once and never parsed. *)
Lemma unfetched_font_is_never_parsed :
  ∃ tr result,
    Demo.textToSvgPath Demo.missingArgument
    = Some (tr, Normal (Multi result))
    ∧ fetch_count Demo.missing tr = 1%nat
    ∧ parse_count Demo.missing tr = 0%nat.
Proof. eexists _, _. split; [reflexivity|]. split; reflexivity. Qed.

(** C2, the code at two inputs.  In the first the font of the group of
    label [__proto__] cannot be fetched: the call resolves, but the mapping
    it returns is not complete, its only key is [b]; the degraded result
    of the failing group has become the prototype of the mapping.  In the
    second a request names ['constructor'] as its font URL, which no fetch
    can resolve: the call does not resolve with a degraded result under
    [a] and the generated one under [b], it rejects, with the [TypeError]
    of the grouping loop and before any fetch. *)
Theorem font_failure_is_not_always_isolated :
  (resolveFont Demo.fetch Demo.opentype_parse Demo.missing).2
  = Throw "Failed to fetch font: Not Found (404)"
  ∧ Demo.textToSvgPath (Demo.collection Demo.protoBatch)
    = Some ([ EvFetch Demo.missing;
              EvFetch Demo.square; EvParse Demo.square [Byte.x01] ],
            Normal
              (Multi
                 (ResultObject.mk
                    [ ("b", Demo.generate (Demo.request "B" Demo.square)) ]
                    (Some (errorResult
                             "Failed to fetch font: Not Found (404)")))))
  ∧ ResultObject.keys
      (ResultObject.mk
         [ ("b", Demo.generate (Demo.request "B" Demo.square)) ]
         (Some (errorResult "Failed to fetch font: Not Found (404)")))
    = [ "b" ]
  ∧ Demo.fetch "constructor" = Throw "request failed"
  ∧ Demo.textToSvgPath
      (Demo.collection [ ("a", Demo.request "A" "constructor");
                         ("b", Demo.request "B" Demo.square) ])
    = Some ([], Throw "fontGroups[opts.fontUrl].push is not a function").
Proof. repeat split; reflexivity. Qed.

(** C6, the code at two inputs.  A batch with the own label [__proto__]
    resolves with a mapping that lacks that label; a batch one request of
    which names ['constructor'] as its font URL yields no mapping at all:
    the call rejects. *)
Theorem batch_labels_are_not_always_mirrored :
  (JSObject.own (Demo.collection Demo.protoBatch)).*1 = [ "__proto__"; "b" ]
  ∧ (∃ tr result,
       Demo.textToSvgPath (Demo.collection Demo.protoBatch)
       = Some (tr, Normal (Multi result))
       ∧ ResultObject.keys result = [ "b" ])
  ∧ (JSObject.own (Demo.collection Demo.constructorBatch)).*1
    = [ "a"; "c"; "z" ]
  ∧ Demo.textToSvgPath (Demo.collection Demo.constructorBatch)
    = Some ([], Throw "fontGroups[opts.fontUrl].push is not a function").
Proof.
  split; [reflexivity|]. split; [|split; reflexivity].
  eexists _, _. split; reflexivity.
Qed.

Lemma generation_failure_degrades_group_witness :
  (∃ result,
     Demo.textToSvgPath Demo.batchArgument
     = Some ([ EvFetch Demo.square; EvParse Demo.square [Byte.x01];
               EvFetch Demo.missing ],
             Normal (Multi result))
     ∧ Demo.processTextWithFont (Demo.request "A" Demo.square) Demo.squareFont
       = Normal (Demo.generate (Demo.request "A" Demo.square))
     ∧ ResultObject.read result "a"
       = Some (errorResult "no outline for a glyph")
     ∧ ResultObject.read result "a"
       ≠ Some (Demo.generate (Demo.request "A" Demo.square))
     ∧ ResultObject.read result "c"
       = Some (errorResult "no outline for a glyph"))
  ∧ (∃ result,
       Demo.textToSvgPath (Demo.collection Demo.protoGroupBatch)
       = Some ([ EvFetch Demo.square; EvParse Demo.square [Byte.x01] ],
               Normal (Multi result))
       ∧ ResultObject.read result "a"
         = Some (errorResult "no outline for a glyph")
       ∧ ResultObject.read result "__proto__"
         = Some (errorResult "no outline for a glyph")).
Proof.
  split.
  - destruct (generation_failure_degrades_group Demo.fetch
                Demo.opentype_parse Demo.getPath Demo.toPathData
                Demo.getBoundingBox Demo.batchArgument Demo.batch
                [ EvFetch Demo.square; EvParse Demo.square [Byte.x01];
                  EvFetch Demo.missing ]
                (Normal (Multi (ResultObject.mk
                   [ ("a", errorResult "no outline for a glyph");
                     ("c", errorResult "no outline for a glyph");
                     ("b", errorResult
                             "Failed to fetch font: Not Found (404)") ]
                   None)))
                Demo.square Demo.squareFont
                "c" (Demo.request "!" Demo.square) "no outline for a glyph"
                eq_refl eq_refl eq_refl (list_elem_of_here _ _)
                eq_refl eq_refl eq_refl eq_refl)
      as (result & e & Hc & (k1 & opts1 & Hget1 & Hurl1 & Hthrow1) & Hall).
    assert (He : e = "no outline for a glyph").
    { unfold Demo.batch in Hget1. cbn [obj_get] in Hget1.
      destruct (decide ("a" = k1)) as [_|_];
        [injection Hget1 as <-; vm_compute in Hthrow1; discriminate Hthrow1|].
      destruct (decide ("b" = k1)) as [_|_];
        [injection Hget1 as <-; vm_compute in Hurl1; discriminate Hurl1|].
      destruct (decide ("c" = k1)) as [_|_]; [|discriminate Hget1].
      injection Hget1 as <-. vm_compute in Hthrow1. congruence. }
    subst e. injection Hc as <-. eexists. split; [reflexivity|].
    split; [reflexivity|].
    destruct (Hall "a" (Demo.request "A" Demo.square) eq_refl eq_refl)
      as [Ha Hnot].
    split; [exact Ha|]. split; [apply Hnot; reflexivity|].
    apply (Hall "c" (Demo.request "!" Demo.square)); reflexivity.
  - destruct (generation_failure_degrades_group Demo.fetch
                Demo.opentype_parse Demo.getPath Demo.toPathData
                Demo.getBoundingBox (Demo.collection Demo.protoGroupBatch)
                Demo.protoGroupBatch
                [ EvFetch Demo.square; EvParse Demo.square [Byte.x01] ]
                (Normal (Multi (ResultObject.mk
                   [ ("a", errorResult "no outline for a glyph") ]
                   (Some (errorResult "no outline for a glyph")))))
                Demo.square Demo.squareFont
                "__proto__" (Demo.request "!" Demo.square)
                "no outline for a glyph"
                eq_refl eq_refl eq_refl (list_elem_of_here _ _)
                eq_refl eq_refl eq_refl eq_refl)
      as (result & e & Hc & (k1 & opts1 & Hget1 & Hurl1 & Hthrow1) & Hall).
    assert (He : e = "no outline for a glyph").
    { unfold Demo.protoGroupBatch in Hget1. cbn [obj_get] in Hget1.
      destruct (decide ("a" = k1)) as [_|_];
        [injection Hget1 as <-; vm_compute in Hthrow1; discriminate Hthrow1|].
      destruct (decide ("__proto__" = k1)) as [_|_]; [|discriminate Hget1].
      injection Hget1 as <-. vm_compute in Hthrow1. congruence. }
    subst e. injection Hc as <-. eexists. split; [reflexivity|].
    split; [apply (Hall "a" (Demo.request "A" Demo.square)); reflexivity|].
    apply (Hall "__proto__" (Demo.request "!" Demo.square)); reflexivity.
Defined.

Lemma mode_by_text_and_fontUrl_witness :
  (∃ tr c, Demo.textToSvgPath (Demo.singleArgument "A" Demo.square)
           = Some (tr, c)
           ∧ is_multi c = false ∧ total_fetches tr = 1%nat)
  ∧ (∃ tr c, Demo.textToSvgPath Demo.batchArgument = Some (tr, c)
             ∧ is_single c = false)
  ∧ Demo.textToSvgPath
      (Demo.collection [ ("text", Demo.request "A" Demo.square);
                         ("fontUrl", Demo.request "B" Demo.square) ])
    = Some ([ EvFetch "[object Object]" ],
            Throw "Error generating SVG path: request failed").
Proof.
  split; [|split; [|reflexivity]].
  - destruct (mode_by_text_and_fontUrl Demo.fetch Demo.opentype_parse
                Demo.getPath Demo.toPathData Demo.getBoundingBox
                (Demo.singleArgument "A" Demo.square)) as (_ & Hsingle & _).
    destruct (Hsingle eq_refl) as [_ Hseen].
    eexists _, _. split; [reflexivity|]. apply (Hseen _ _ eq_refl).
  - destruct (mode_by_text_and_fontUrl Demo.fetch Demo.opentype_parse
                Demo.getPath Demo.toPathData Demo.getBoundingBox
                Demo.batchArgument) as (_ & _ & Hbatch).
    destruct (Hbatch eq_refl) as [_ Hseen].
    eexists _, _. split; [reflexivity|]. apply (Hseen _ _ eq_refl).
Defined.

(** Against C7 as stated: an object with no property of its own that
    inherits [text] and [fontUrl], as [Object.create({ text, fontUrl })]
    does, is processed as a single request. *)
Lemma inherited_properties_select_single_mode :
  JSObject.own (Demo.inheritingArgument "A" Demo.square) = []
  ∧ Demo.textToSvgPath (Demo.inheritingArgument "A" Demo.square)
    = Some ([ EvFetch Demo.square; EvParse Demo.square [Byte.x01] ],
            Normal (Single (Demo.generate (Demo.request "A" Demo.square)))).
Proof. split; reflexivity. Qed.

Lemma single_font_failure_rejects_witness :
  Demo.textToSvgPath (Demo.singleArgument "A" Demo.missing)
  = Some ([EvFetch Demo.missing],
          Throw "Error generating SVG path: Failed to fetch font: Not Found (404)")
  ∧ Demo.textToSvgPath (Demo.singleArgument "A" Demo.garbage)
    = Some ([EvFetch Demo.garbage; EvParse Demo.garbage [Byte.x02]],
            Throw "Error generating SVG path: Unsupported OpenType signature").
Proof.
  split.
  - destruct (single_font_failure_rejects Demo.fetch Demo.opentype_parse
                Demo.getPath Demo.toPathData Demo.getBoundingBox
                (Demo.singleArgument "A" Demo.missing)
                (Demo.request "A" Demo.missing) eq_refl eq_refl)
      as [Hstatus _].
    exact (Hstatus _ eq_refl eq_refl).
  - destruct (single_font_failure_rejects Demo.fetch Demo.opentype_parse
                Demo.getPath Demo.toPathData Demo.getBoundingBox
                (Demo.singleArgument "A" Demo.garbage)
                (Demo.request "A" Demo.garbage) eq_refl eq_refl)
      as [_ Hparse].
    exact (Hparse _ _ _ eq_refl eq_refl eq_refl eq_refl).
Defined.

(** Against C3 as stated: a parser error with an empty message is reported
    as ["Unknown error"], not as the empty message. *)
Lemma empty_parser_message_is_replaced :
  Demo.opentype_parse [Byte.x03] = Throw EmptyString
  ∧ Demo.textToSvgPath (Demo.singleArgument "A" Demo.quiet)
    = Some ([EvFetch Demo.quiet; EvParse Demo.quiet [Byte.x03]],
            Throw "Error generating SVG path: Unknown error")
  ∧ "Error generating SVG path: Unknown error"
    ≠ template [ "Error generating SVG path: "; EmptyString ].
Proof. split; [reflexivity|]. split; [reflexivity | discriminate]. Qed.

Lemma output_format_selection_witness :
  let options :=
    Demo.with_formats [FpathData]
      (Demo.with_background "#333333" (Demo.request "A" Demo.square)) in
  Demo.processTextWithFont options Demo.squareFont
  = Normal (Demo.generate options)
  ∧ Result.pathData (Demo.generate options) = "M0 0H72V72H0Z"
  ∧ Result.pathElement (Demo.generate options) = EmptyString
  ∧ Result.svg (Demo.generate options) = EmptyString
  ∧ Result.svgWithBackground (Demo.generate options) = None.
Proof.
  intros options.
  destruct (output_format_selection Demo.getPath Demo.toPathData
              Demo.getBoundingBox options Demo.squareFont
              (Demo.generate options) eq_refl)
    as (_ & _ & _ & _ & _ & _ & Hparticular).
  split; [reflexivity|]. split; [reflexivity|].
  exact (Hparticular eq_refl).
Defined.

(** Against C4 as stated: without a [background], [svgWithBackground] is
    not produced when [outputFormats] is absent, nor when it names that
    format. *)
Lemma selected_svgWithBackground_needs_background :
  (Options.outputFormats (Demo.request "A" Demo.square) = None
   ∧ Demo.processTextWithFont (Demo.request "A" Demo.square) Demo.squareFont
     = Normal (Demo.generate (Demo.request "A" Demo.square))
   ∧ Result.svgWithBackground (Demo.generate (Demo.request "A" Demo.square))
     = None)
  ∧ (Options.outputFormats
       (Demo.with_formats [FsvgWithBackground]
          (Demo.request "A" Demo.square))
     = Some [FsvgWithBackground]
     ∧ Demo.processTextWithFont
         (Demo.with_formats [FsvgWithBackground]
            (Demo.request "A" Demo.square)) Demo.squareFont
       = Normal (Demo.generate
                   (Demo.with_formats [FsvgWithBackground]
                      (Demo.request "A" Demo.square)))
     ∧ Result.svgWithBackground
         (Demo.generate
            (Demo.with_formats [FsvgWithBackground]
               (Demo.request "A" Demo.square)))
       = None).
Proof. repeat split; reflexivity. Qed.

Lemma svgWithBackground_present_iff_witness :
  let options := Demo.with_background "#333333" (Demo.request "A" Demo.square) in
  (is_Some (Result.svgWithBackground (Demo.generate options))
   ↔ (∃ b, Options.background options = Some b ∧ b ≠ EmptyString)
     ∧ (Options.outputFormats options = None
        ∨ Options.outputFormats options = Some []
        ∨ ∃ fs, Options.outputFormats options = Some fs
                ∧ FsvgWithBackground ∈ fs))
  ∧ (Options.background options = None →
     Result.svgWithBackground (Demo.generate options) = None).
Proof.
  intros options.
  exact (svgWithBackground_present_iff Demo.getPath Demo.toPathData
           Demo.getBoundingBox options Demo.squareFont
           (Demo.generate options) eq_refl).
Defined.

Lemma explicit_zero_width_is_ignored_witness :
  let options :=
    Demo.with_size (Some 0%Q) None
      (Demo.with_fontSize 10%Q (Demo.request "AB" Demo.square)) in
  Options.width options = Some 0%Q
  ∧ Demo.processTextWithFont options Demo.squareFont
    = Normal (Demo.generate options)
  ∧ Result.svg (Demo.generate options)
    = svgMarkup (inject_Z 24) (inject_Z 14) (-2)%Q (-2)%Q
        (pathElementMarkup "M0 0H20V10H0Z" "#000000" "none" "0")
  ∧ Result.svg (Demo.generate options)
    ≠ svgMarkup 0%Q (inject_Z 14) (-2)%Q (-2)%Q
        (pathElementMarkup "M0 0H20V10H0Z" "#000000" "none" "0").
Proof.
  intros options.
  destruct (explicit_zero_width_is_ignored Demo.getPath Demo.toPathData
              Demo.getBoundingBox options Demo.squareFont
              (Demo.generate options) eq_refl eq_refl eq_refl)
    as (path & Hpath & Hsvg).
  injection Hpath as <-.
  split; [reflexivity|]. split; [reflexivity|].
  rewrite Hsvg. split; [reflexivity|]. vm_compute. discriminate.
Defined.

(** ** The further properties *)

Lemma single_generation_error_is_not_wrapped_witness :
  Demo.textToSvgPath (Demo.singleArgument "!" Demo.square)
  = Some ([EvFetch Demo.square; EvParse Demo.square [Byte.x01]],
          Throw "no outline for a glyph").
Proof.
  exact (single_generation_error_is_not_wrapped Demo.fetch
           Demo.opentype_parse Demo.getPath Demo.toPathData
           Demo.getBoundingBox (Demo.singleArgument "!" Demo.square)
           (Demo.request "!" Demo.square) Demo.squareFont
           "no outline for a glyph" eq_refl eq_refl eq_refl eq_refl).
Defined.

Lemma single_transport_failure_rejects_witness :
  Demo.textToSvgPath (Demo.singleArgument "A" "https://fonts.test/nowhere")
  = Some ([EvFetch "https://fonts.test/nowhere"],
          Throw "Error generating SVG path: request failed").
Proof.
  destruct (single_transport_failure_rejects Demo.fetch Demo.opentype_parse
              Demo.getPath Demo.toPathData Demo.getBoundingBox
              (Demo.singleArgument "A" "https://fonts.test/nowhere")
              (Demo.request "A" "https://fonts.test/nowhere")
              eq_refl eq_refl) as [Hfetch _].
  exact (Hfetch "request failed" eq_refl).
Defined.

Lemma single_mode_resolves_one_font_witness :
  ∃ tr c,
    Demo.textToSvgPath (Demo.singleArgument "A" Demo.missing) = Some (tr, c)
    ∧ total_fetches tr = 1%nat
    ∧ fetch_count Demo.missing tr = 1%nat
    ∧ parse_count Demo.missing tr = 0%nat
    ∧ (∀ u, u ≠ Demo.missing → parse_count u tr = 0%nat).
Proof.
  exact (single_mode_resolves_one_font Demo.fetch Demo.opentype_parse
           Demo.getPath Demo.toPathData Demo.getBoundingBox
           (Demo.singleArgument "A" Demo.missing)
           (Demo.request "A" Demo.missing) eq_refl eq_refl).
Defined.

Lemma batch_agrees_with_single_witness :
  Demo.textToSvgPath (Demo.singleArgument "A" Demo.square)
  = Some ([EvFetch Demo.square; EvParse Demo.square [Byte.x01]],
          Normal (Single (Demo.generate (Demo.request "A" Demo.square))))
  ∧ Demo.fetch_later Demo.square = Demo.fetch Demo.square
  ∧ ∃ tr' result,
      textToSvgPath Demo.fetch_later Demo.opentype_parse Demo.getPath
        Demo.toPathData Demo.getBoundingBox
        (Demo.collection [ ("a", Demo.request "A" Demo.square);
                           ("b", Demo.request "B" Demo.missing) ])
      = Some (tr', Normal (Multi result))
      ∧ ResultObject.read result "a"
        = Some (Demo.generate (Demo.request "A" Demo.square)).
Proof.
  split; [reflexivity|]. split; [reflexivity|].
  apply (batch_agrees_with_single Demo.fetch Demo.fetch_later
           Demo.opentype_parse Demo.getPath Demo.toPathData
           Demo.getBoundingBox
           (Demo.singleArgument "A" Demo.square)
           (Demo.collection [ ("a", Demo.request "A" Demo.square);
                              ("b", Demo.request "B" Demo.missing) ])
           (Demo.request "A" Demo.square)
           [ ("a", Demo.request "A" Demo.square);
             ("b", Demo.request "B" Demo.missing) ]
           "a" [EvFetch Demo.square; EvParse Demo.square [Byte.x01]]);
    try reflexivity.
  intros k' opts' font Hget Hurl Hfont. cbn [obj_get] in Hget.
  injection Hfont as <-.
  destruct (decide ("a" = k')) as [_|_];
    [injection Hget as <-; eexists; reflexivity|].
  destruct (decide ("b" = k')) as [_|_]; [|discriminate Hget].
  injection Hget as <-. vm_compute in Hurl. discriminate Hurl.
Defined.

Lemma batch_fetches_once_per_distinct_url_witness :
  ∃ tr result (urls : list string),
    Demo.textToSvgPath Demo.batchArgument = Some (tr, Normal (Multi result))
    ∧ NoDup urls
    ∧ (∀ u, u ∈ urls
            ↔ ∃ k opts, obj_get Demo.batch k = Some opts
                        ∧ Options.fontUrl opts = u)
    ∧ total_fetches tr = length urls
    ∧ (total_fetches tr ≤ length (JSObject.own Demo.batchArgument))%nat
    ∧ (∀ u, JSObject.own Demo.batchArgument ≠ [] →
         (∀ k opts, obj_get Demo.batch k = Some opts →
                    Options.fontUrl opts = u) →
         tr = (resolveFont Demo.fetch Demo.opentype_parse u).1).
Proof.
  exact (batch_fetches_once_per_distinct_url Demo.fetch Demo.opentype_parse
           Demo.getPath Demo.toPathData Demo.getBoundingBox
           Demo.batchArgument Demo.batch eq_refl eq_refl eq_refl).
Defined.

Lemma parser_only_sees_fetched_bytes_witness :
  EvFetch Demo.square
  ∈ [EvFetch Demo.square; EvParse Demo.square [Byte.x01]]
  ∧ ∃ response, Demo.fetch Demo.square = Normal response
                ∧ Response.ok response = true
                ∧ Response.arrayBuffer response = Normal [Byte.x01].
Proof.
  apply (parser_only_sees_fetched_bytes Demo.fetch Demo.opentype_parse
           Demo.getPath Demo.toPathData Demo.getBoundingBox
           (Demo.singleArgument "!" Demo.square)
           [EvFetch Demo.square; EvParse Demo.square [Byte.x01]]
           (Throw "no outline for a glyph") Demo.square [Byte.x01]).
  - reflexivity.
  - apply elem_of_cons. right. apply elem_of_cons. left. reflexivity.
Defined.

Lemma font_group_is_all_or_nothing_witness :
  ∃ tr result,
    Demo.textToSvgPath Demo.batchArgument = Some (tr, Normal (Multi result))
    ∧ ∀ u,
        (∃ e, ∀ k opts, obj_get Demo.batch k = Some opts →
                Options.fontUrl opts = u →
                ResultObject.read result k = Some (errorResult e))
        ∨ (∃ font,
             (resolveFont Demo.fetch Demo.opentype_parse u).2 = Normal font
             ∧ ∀ k opts, obj_get Demo.batch k = Some opts →
                 Options.fontUrl opts = u →
                 ∃ r, Demo.processTextWithFont opts font = Normal r
                      ∧ ResultObject.read result k = Some r).
Proof.
  exact (font_group_is_all_or_nothing Demo.fetch Demo.opentype_parse
           Demo.getPath Demo.toPathData Demo.getBoundingBox
           Demo.batchArgument Demo.batch eq_refl eq_refl eq_refl).
Defined.

Lemma outputFormats_only_filters_witness :
  let options :=
    Demo.with_background "#333333" (Demo.request "A" Demo.square) in
  let unfiltered := Demo.generate (setOutputFormats None options) in
  ∃ r,
    Demo.processTextWithFont (setOutputFormats (Some [Fsvg]) options)
      Demo.squareFont = Normal r
    ∧ Result.pathData r = Result.pathData unfiltered
    ∧ Result.pathElement r = EmptyString
    ∧ Result.svg r = Result.svg unfiltered
    ∧ Result.svgWithBackground r = None.
Proof.
  intros options unfiltered.
  exact (outputFormats_only_filters Demo.getPath Demo.toPathData
           Demo.getBoundingBox options Demo.squareFont (Some [Fsvg])
           unfiltered eq_refl).
Defined.

Lemma outputFormats_is_a_set_witness :
  let options := Demo.request "A" Demo.square in
  Demo.processTextWithFont
    (setOutputFormats (Some [Fsvg; FpathElement]) options) Demo.squareFont
  = Demo.processTextWithFont
      (setOutputFormats (Some [FpathElement; Fsvg; Fsvg]) options)
      Demo.squareFont
  ∧ ([Fsvg; FpathElement] ≠ [] →
     Demo.processTextWithFont
       (setOutputFormats (Some [FpathData; Fsvg; FpathElement]) options)
       Demo.squareFont
     = Demo.processTextWithFont
         (setOutputFormats (Some [Fsvg; FpathElement]) options)
         Demo.squareFont).
Proof.
  intros options.
  apply (outputFormats_is_a_set Demo.getPath Demo.toPathData
           Demo.getBoundingBox options Demo.squareFont
           [Fsvg; FpathElement] [FpathElement; Fsvg; Fsvg]).
  intros f. rewrite !elem_of_cons, !elem_of_nil. tauto.
Defined.

Lemma degraded_svg_differs_from_generated_witness :
  Result.svg (Demo.generate (Demo.request "A" Demo.square))
  ≠ Result.svg (errorResult "request failed")
  ∧ Result.svgWithBackground (errorResult "request failed") = None
  ∧ Result.pathData (errorResult "request failed") = EmptyString.
Proof.
  exact (degraded_svg_differs_from_generated Demo.getPath Demo.toPathData
           Demo.getBoundingBox (Demo.request "A" Demo.square)
           Demo.squareFont (Demo.generate (Demo.request "A" Demo.square))
           "request failed" eq_refl).
Defined.

Lemma font_groups_do_not_interfere_witness :
  Demo.fetch_later Demo.square = Demo.fetch Demo.square
  ∧ ∃ tr result tr' result',
      Demo.textToSvgPath
        (Demo.collection [ ("a", Demo.request "A" Demo.square);
                           ("b", Demo.request "B" Demo.missing) ])
      = Some (tr, Normal (Multi result))
      ∧ textToSvgPath Demo.fetch_later Demo.opentype_parse Demo.getPath
          Demo.toPathData Demo.getBoundingBox
          (Demo.collection [ ("c", Demo.request "!" Demo.missing);
                             ("a", Demo.request "A" Demo.square) ])
        = Some (tr', Normal (Multi result'))
      ∧ ∀ k, k ∈ group_of [ ("a", Demo.request "A" Demo.square);
                            ("b", Demo.request "B" Demo.missing) ]
                   Demo.square →
             is_Some (ResultObject.read result k)
             ∧ ResultObject.read result k = ResultObject.read result' k.
Proof.
  split; [reflexivity|].
  apply (font_groups_do_not_interfere Demo.fetch Demo.fetch_later
           Demo.opentype_parse Demo.getPath Demo.toPathData
           Demo.getBoundingBox
           (Demo.collection [ ("a", Demo.request "A" Demo.square);
                              ("b", Demo.request "B" Demo.missing) ])
           (Demo.collection [ ("c", Demo.request "!" Demo.missing);
                              ("a", Demo.request "A" Demo.square) ])
           [ ("a", Demo.request "A" Demo.square);
             ("b", Demo.request "B" Demo.missing) ]
           [ ("c", Demo.request "!" Demo.missing);
             ("a", Demo.request "A" Demo.square) ]
           Demo.square); try reflexivity.
  intros k Hk. vm_compute in Hk.
  apply list_elem_of_singleton in Hk as ->. reflexivity.
Defined.

Lemma batch_font_failure_is_isolated_witness :
  ∃ tr result,
    Demo.textToSvgPath
      (Demo.collection [ ("a", Demo.request "A" Demo.square);
                         ("b", Demo.request "B" Demo.missing) ])
    = Some (tr, Normal (Multi result))
    ∧ ResultObject.read result "a"
      = Some (Demo.generate (Demo.request "A" Demo.square))
    ∧ ResultObject.read result "b"
      = Some (errorResult "Failed to fetch font: Not Found (404)").
Proof.
  destruct (batch_font_failure_is_isolated Demo.fetch Demo.opentype_parse
              Demo.getPath Demo.toPathData Demo.getBoundingBox
              (Demo.collection [ ("a", Demo.request "A" Demo.square);
                                 ("b", Demo.request "B" Demo.missing) ])
              [ ("a", Demo.request "A" Demo.square);
                ("b", Demo.request "B" Demo.missing) ]
              Demo.missing "Failed to fetch font: Not Found (404)"
              eq_refl eq_refl eq_refl eq_refl)
    as (tr & result & Hrun & _ & Hfailed & Hother).
  exists tr, result. split; [exact Hrun|]. split.
  - apply (Hother "a" (Demo.request "A" Demo.square) Demo.squareFont);
      try reflexivity.
    intros k' opts' Hget Hurl. cbn [obj_get] in Hget.
    destruct (decide ("a" = k')) as [_|_];
      [injection Hget as <-; eexists; reflexivity|].
    destruct (decide ("b" = k')) as [_|_]; [|discriminate Hget].
    injection Hget as <-. vm_compute in Hurl. discriminate Hurl.
  - destruct (Hfailed "b" (Demo.request "B" Demo.missing) eq_refl eq_refl)
      as ([svg back data elem] & Hget & Hdata & Helem & Hsvg & Hback).
    cbn in Hdata, Helem, Hsvg, Hback. subst. exact Hget.
Defined.

Lemma output_shape_mirrors_input_witness :
  (∃ tr result,
     Demo.textToSvgPath Demo.batchArgument = Some (tr, Normal (Multi result))
     ∧ NoDup (ResultObject.keys result)
     ∧ (∀ k, k ∈ ResultObject.keys result
             ↔ k ∈ (JSObject.own Demo.batchArgument).*1 ∧ k ≠ "__proto__")
     ∧ (NoDup (JSObject.own Demo.batchArgument).*1 →
        "__proto__" ∉ (JSObject.own Demo.batchArgument).*1 →
        ResultObject.keys result ≡ₚ (JSObject.own Demo.batchArgument).*1))
  ∧ Demo.textToSvgPath (Demo.collection Demo.constructorBatch)
    = Some ([], Throw push_is_not_a_function).
Proof.
  destruct (output_shape_mirrors_input Demo.fetch Demo.opentype_parse
              Demo.getPath Demo.toPathData Demo.getBoundingBox
              Demo.batchArgument) as [Hbatch _].
  destruct (output_shape_mirrors_input Demo.fetch Demo.opentype_parse
              Demo.getPath Demo.toPathData Demo.getBoundingBox
              (Demo.collection Demo.constructorBatch)) as [Hrejects _].
  split.
  - exact (proj2 (Hbatch Demo.batch eq_refl eq_refl) eq_refl).
  - exact (proj1 (Hrejects Demo.constructorBatch eq_refl eq_refl) eq_refl).
Defined.

Lemma svg_dimensions_witness :
  let options :=
    Demo.with_size (Some 100%Q) None
      (Demo.with_fontSize 10%Q (Demo.request "AB" Demo.square)) in
  ∃ width height : Q,
    width = 100%Q
    ∧ height = inject_Z 14
    ∧ Result.svg (Demo.generate options)
      = svgMarkup width height (-2)%Q (-2)%Q
          (pathElementMarkup "M0 0H20V10H0Z" "#000000" "none" "0").
Proof.
  intros options.
  destruct (svg_dimensions Demo.getPath Demo.toPathData Demo.getBoundingBox
              options Demo.squareFont (Demo.generate options)
              eq_refl eq_refl)
    as (path & Hpath & width & height & Hwidth & Hheight & Hsvg).
  injection Hpath as <-.
  exists width, height. cbn in Hwidth, Hheight.
  split; [exact Hwidth|]. split; [exact Hheight|].
  rewrite Hsvg, Hwidth, Hheight. reflexivity.
Defined.
